(** * PatchExtractor: [convertToPatch] and [getPatchFileName]

    A shallow embedding of [src/commands/patchUtils.js] and of its sibling
    copy, followed by the properties of the recognizer and of the file-name
    deriver.

    JavaScript strings are sequences of UTF-16 code units; regular
    expressions without the [u] flag work on code units.  A string is
    therefore a [list N], and a regular expression is a value of [regex]
    run by a backtracking matcher that follows the priority order of the
    ECMAScript matcher (first alternative first, greedy quantifiers longest
    first, lazy quantifiers shortest first). *)

From Stdlib Require Import String Ascii.
From Stdlib Require Import List NArith ZArith Bool Arith Lia.
Import ListNotations.

Set Implicit Arguments.

(** ** Text *)

Module Text.

Definition char := N.
Definition str := list char.

(** A literal of the source, given as an ASCII string. *)
Fixpoint js (s : string) : str :=
  match s with
  | EmptyString => []
  | String a s' => N_of_ascii a :: js s'
  end.

Definition LF : char := 10%N.
Definition CR : char := 13%N.
Definition SP : char := 32%N.
Definition NBSP : char := 160%N.   (* U+00A0 *)

Fixpoint str_eqb (a b : str) : bool :=
  match a, b with
  | [], [] => true
  | x :: a', y :: b' => N.eqb x y && str_eqb a' b'
  | _, _ => false
  end.

(** [a.endsWith(b)] *)
Definition endsWith (a b : str) : bool :=
  (length b <=? length a) && str_eqb (skipn (length a - length b) a) b.

(** [s.replaceAll(NBSP, SP)]: the pattern is one code unit long, so
    the replacement acts code unit by code unit. *)
Definition replaceNbsp (s : str) : str :=
  map (fun c => if N.eqb c NBSP then SP else c) s.

(** [s.split(/\r\n|\n/)]: the separator never matches the empty string, so
    the result has one more piece than there are separators (and [""] splits
    into [[""]]).  At a carriage return the first alternative is tried
    first. *)
Fixpoint splitFrom (cur : str) (s : str) : list str :=
  match s with
  | [] => [rev cur]
  | c :: rest =>
      if N.eqb c LF then rev cur :: splitFrom [] rest
      else if N.eqb c CR then
        match rest with
        | d :: rest' =>
            if N.eqb d LF then rev cur :: splitFrom [] rest'
            else splitFrom (c :: cur) rest
        | [] => splitFrom (c :: cur) rest
        end
      else splitFrom (c :: cur) rest
  end.

Definition splitLines (s : str) : list str := splitFrom [] s.

(** [lines.join("\n")], to write a body line by line. *)
Fixpoint joinLines (lines : list str) : str :=
  match lines with
  | [] => []
  | [l] => l
  | l :: rest => l ++ LF :: joinLines rest
  end.

(** ECMAScript [WhiteSpace] and [LineTerminator], the class [\s]. *)
Definition isLineTerminator (c : char) : bool :=
  N.eqb c 10 || N.eqb c 13 || N.eqb c 8232 || N.eqb c 8233.

Definition isWhiteSpace (c : char) : bool :=
  N.eqb c 9 || N.eqb c 11 || N.eqb c 12 || N.eqb c 32 || N.eqb c 160
  || N.eqb c 5760 || (N.leb 8192 c && N.leb c 8202)
  || N.eqb c 8239 || N.eqb c 8287 || N.eqb c 12288 || N.eqb c 65279
  || isLineTerminator c.

Definition isDigit (c : char) : bool := N.leb 48 c && N.leb c 57.
Definition isAlpha (c : char) : bool :=
  (N.leb 65 c && N.leb c 90) || (N.leb 97 c && N.leb c 122).

End Text.
Export Text.

(** ** Regular expressions *)

Module Regex.

Inductive regex : Type :=
| Eps                                   (* the empty pattern *)
| Chr (p : char -> bool)                (* one code unit of a class *)
| Seq (r1 r2 : regex)                   (* r1 r2 *)
| Alt (r1 r2 : regex)                   (* r1 | r2 *)
| Star (greedy : bool) (r : regex)      (* r* and r*? *)
| Group (n : nat) (r : regex)           (* the n-th capturing group *)
| Bol                                   (* ^ without the m flag *)
| Eol.                                  (* $ without the m flag *)

Definition Plus (r : regex) : regex := Seq r (Star true r).
Definition Opt (r : regex) : regex := Alt r Eps.

Fixpoint seq (rs : list regex) : regex :=
  match rs with
  | [] => Eps
  | [r] => r
  | r :: rs' => Seq r (seq rs')
  end.

Definition lit1 (c : char) : regex := Chr (N.eqb c).

Fixpoint lit (s : str) : regex :=
  match s with
  | [] => Eps
  | [c] => lit1 c
  | c :: s' => Seq (lit1 c) (lit s')
  end.

(** Canonicalization under the [i] flag (no [u] flag): a code unit above
    127 is never folded onto an ASCII one, so an ASCII pattern letter
    matches exactly its two ASCII cases. *)
Definition upper (c : char) : char :=
  if N.leb 97 c && N.leb c 122 then (c - 32)%N else c.

Definition lit1i (c : char) : regex := Chr (fun d => N.eqb (upper c) (upper d)).

Fixpoint liti (s : str) : regex :=
  match s with
  | [] => Eps
  | [c] => lit1i c
  | c :: s' => Seq (lit1i c) (liti s')
  end.

Definition ws : regex := Chr isWhiteSpace.                       (* \s *)
Definition nonws : regex := Chr (fun c => negb (isWhiteSpace c)). (* \S *)
Definition digit : regex := Chr isDigit.                         (* \d, [0-9] *)
Definition dot : regex := Chr (fun c => negb (isLineTerminator c)). (* . *)

(** The captures: group number and captured text, the most recent first.
    A group that took no part in the match has no entry ([undefined]). *)
Definition caps := list (nat * str).

Fixpoint capture (c : caps) (n : nat) : option str :=
  match c with
  | [] => None
  | (m, s) :: c' => if Nat.eqb m n then Some s else capture c' n
  end.

Section Matcher.

Variable A : Type.

(** A continuation receives the rest of the input, the number of code
    units consumed so far, and the captures. *)
Definition cont := str -> nat -> caps -> option A.

Definition orElse (x : option A) (y : unit -> option A) : option A :=
  match x with
  | Some v => Some v
  | None => y tt
  end.

(** The quantifier [*]: an iteration that consumes nothing is rejected, as
    the ECMAScript RepeatMatcher does; [n] bounds the iterations by the
    length of the remaining input. *)
Fixpoint starLoop (greedy : bool) (body : str -> nat -> caps -> cont -> option A)
         (k : cont) (n : nat) (s : str) (i : nat) (c : caps) : option A :=
  let iter (_ : unit) :=
    match n with
    | O => None
    | S n' =>
        body s i c (fun s' i' c' =>
          if length s' <? length s then starLoop greedy body k n' s' i' c'
          else None)
    end in
  if greedy then orElse (iter tt) (fun _ => k s i c)
  else orElse (k s i c) iter.

Fixpoint rmatch (r : regex) (s : str) (i : nat) (c : caps) (k : cont)
  {struct r} : option A :=
  match r with
  | Eps => k s i c
  | Chr p =>
      match s with
      | a :: s' => if p a then k s' (S i) c else None
      | [] => None
      end
  | Seq r1 r2 => rmatch r1 s i c (fun s' i' c' => rmatch r2 s' i' c' k)
  | Alt r1 r2 => orElse (rmatch r1 s i c k) (fun _ => rmatch r2 s i c k)
  | Star g r1 =>
      starLoop g (fun s' i' c' k' => rmatch r1 s' i' c' k') k (length s) s i c
  | Group n r1 =>
      rmatch r1 s i c (fun s' i' c' =>
        k s' i' ((n, firstn (length s - length s') s) :: c'))
  | Bol => if Nat.eqb i 0 then k s i c else None
  | Eol => match s with [] => k s i c | _ :: _ => None end
  end.

End Matcher.

(** One attempt at the position [i], where [s] is what is left of the
    input there: the captures, with the whole match as group 0. *)
Definition matchAt (r : regex) (s : str) (i : nat) : option caps :=
  rmatch r s i [] (fun s' _ c => Some ((0, firstn (length s - length s') s) :: c)).

(** [RegExp.prototype.exec] for a regular expression without the [g] and
    [y] flags: the first position, from the left, at which an attempt
    succeeds. *)
Fixpoint search (r : regex) (s : str) (i : nat) : option caps :=
  match matchAt r s i with
  | Some c => Some c
  | None =>
      match s with
      | [] => None
      | _ :: s' => search r s' (S i)
      end
  end.

(** [s.match(r)] *)
Definition exec (r : regex) (s : str) : option caps := search r s 0.

End Regex.
Export Regex.

(** ** Numbers *)

Module Number.

Local Open Scope Z_scope.

(** The values a JavaScript Number takes in this program: integers that a
    binary64 represents, the infinities and NaN. *)
Inductive number : Type :=
| Fin (z : Z)
| PInf
| NInf
| NaN.

(** The binary64 nearest to the integer [z], ties to even.  Integers up to
    2^53 in magnitude are exact; above, 53 significant bits are kept. *)
Definition roundDouble (z : Z) : number :=
  let a := Z.abs z in
  if a <=? 2 ^ 53 then Fin z
  else
    let e := Z.log2 a - 52 in
    let q := Z.shiftr a e in
    let r := a - Z.shiftl q e in
    let half := Z.shiftl 1 (e - 1) in
    let q' := if (half <? r) || ((half =? r) && Z.odd q) then q + 1 else q in
    let v := Z.shiftl q' e in
    if 2 ^ 1024 <=? v then (if 0 <? z then PInf else NInf)
    else Fin (if 0 <? z then v else - v).

(** [x--] *)
Definition dec (x : number) : number :=
  match x with
  | Fin z => roundDouble (z - 1)
  | _ => x
  end.

(** [x == 0] *)
Definition isZero (x : number) : bool :=
  match x with
  | Fin z => z =? 0
  | _ => false
  end.

(** [x >= 0] *)
Definition geZero (x : number) : bool :=
  match x with
  | Fin z => 0 <=? z
  | PInf => true
  | _ => false
  end.

Fixpoint dropWhile (p : char -> bool) (s : str) : str :=
  match s with
  | c :: s' => if p c then dropWhile p s' else s
  | [] => []
  end.

Definition digitValue (radix : Z) (c : char) : option Z :=
  if isDigit c then Some (Z.of_N c - 48)
  else if radix =? 16 then
    if (N.leb 97 c && N.leb c 102)%N then Some (Z.of_N c - 87)
    else if (N.leb 65 c && N.leb c 70)%N then Some (Z.of_N c - 55)
    else None
  else None.

(** The value of the longest prefix of digits; [None] when it is empty. *)
Fixpoint digitsValue (radix : Z) (acc : option Z) (s : str) : option Z :=
  match s with
  | c :: s' =>
      match digitValue radix c with
      | Some d =>
          digitsValue radix
            (Some (match acc with Some a => a * radix + d | None => d end)) s'
      | None => acc
      end
  | [] => acc
  end.

(** [parseInt(s)] with no radix: leading white space, a sign, a [0x]
    prefix, then the longest run of digits; NaN when there is none.  The
    integer is rounded to the nearest binary64 (ECMAScript lets an
    implementation replace by zeros the decimal digits after the 20th
    before it rounds; the exact value is rounded here). *)
Definition parseInt (s : str) : number :=
  let s1 := dropWhile isWhiteSpace s in
  let '(neg, s2) :=
    match s1 with
    | c :: t => if N.eqb c 45 then (true, t)
                else if N.eqb c 43 then (false, t) else (false, s1)
    | [] => (false, s1)
    end in
  let '(radix, s3) :=
    match s2 with
    | c :: d :: t =>
        if N.eqb c 48 && (N.eqb d 120 || N.eqb d 88) then (16, t) else (10, s2)
    | _ => (10, s2)
    end in
  match digitsValue radix None s3 with
  | None => NaN
  | Some v => roundDouble (if neg then - v else v)
  end.

(** The decimal digits of a natural number. *)
Fixpoint uintDigits (u : Decimal.uint) : str :=
  match u with
  | Decimal.Nil => []
  | Decimal.D0 u' => 48%N :: uintDigits u'
  | Decimal.D1 u' => 49%N :: uintDigits u'
  | Decimal.D2 u' => 50%N :: uintDigits u'
  | Decimal.D3 u' => 51%N :: uintDigits u'
  | Decimal.D4 u' => 52%N :: uintDigits u'
  | Decimal.D5 u' => 53%N :: uintDigits u'
  | Decimal.D6 u' => 54%N :: uintDigits u'
  | Decimal.D7 u' => 55%N :: uintDigits u'
  | Decimal.D8 u' => 56%N :: uintDigits u'
  | Decimal.D9 u' => 57%N :: uintDigits u'
  end.

Definition decimal (n : N) : str := uintDigits (N.to_uint n).

End Number.
Export Number.

(** ** Exceptions *)

Module Result.

Inductive exn : Type := TypeError.

Inductive result (A : Type) : Type :=
| Ok (a : A)
| Throw (e : exn).

Arguments Throw {A} e.

Definition bind {A B : Type} (x : result A) (f : A -> result B) : result B :=
  match x with
  | Ok a => f a
  | Throw e => Throw e
  end.

End Result.
Export Result.

Notation "x <- e1 ;; e2" := (bind e1 (fun x => e2))
  (at level 61, e1 at next level, right associativity).

(** ** The recognizer: [convertToPatch] *)

Module Patch.

Local Open Scope string_scope.
Local Open Scope list_scope.

Inductive PatchState : Type :=
| PatchStateStart
| PatchStateFileHeader
| PatchStateHunkHeader
| PatchStateHunk
| PatchStateHunkEnd
| PatchStateEnd.

Definition PatchState_eqb (a b : PatchState) : bool :=
  match a, b with
  | PatchStateStart, PatchStateStart
  | PatchStateFileHeader, PatchStateFileHeader
  | PatchStateHunkHeader, PatchStateHunkHeader
  | PatchStateHunk, PatchStateHunk
  | PatchStateHunkEnd, PatchStateHunkEnd
  | PatchStateEnd, PatchStateEnd => true
  | _, _ => false
  end.

(** [/^diff\s+--git\s+a(\/.* )\s+b(\/.* )$/] (written here with a blank
    before each closing parenthesis). *)
Definition regexPatchFileHeader : regex :=
  seq [Bol; lit (js "diff"); Plus ws; lit (js "--git"); Plus ws; lit (js "a");
       Group 1 (Seq (lit (js "/")) (Star true dot)); Plus ws; lit (js "b");
       Group 2 (Seq (lit (js "/")) (Star true dot)); Eol].

(** [/^@@\s+-(?:\d+,)?(\d+)\s+\+(?:\d+,)?(\d+)\s+@@.*$/] *)
Definition regexPatchHunkAsciiHeader : regex :=
  seq [Bol; lit (js "@@"); Plus ws; lit (js "-");
       Opt (Seq (Plus digit) (lit (js ","))); Group 1 (Plus digit);
       Plus ws; lit (js "+");
       Opt (Seq (Plus digit) (lit (js ","))); Group 2 (Plus digit);
       Plus ws; lit (js "@@"); Star true dot; Eol].

(** [/^(delta|literal)\s+[0-9]+\s*$/] *)
Definition regexPatchHunkBinarySubHeader : regex :=
  seq [Bol; Group 1 (Alt (lit (js "delta")) (lit (js "literal")));
       Plus ws; Plus digit; Star true ws; Eol].

(** [/^[a-zA-Z]\S+$/] *)
Definition regexPatchHunkBinary : regex :=
  seq [Bol; Chr isAlpha; Plus nonws; Eol].

(** The local variables of [convertToPatch] that live across iterations. *)
Record Locals : Type := mkLocals {
  patchBody : str;
  addedLines : number;
  deletedLines : number;
  ascii : bool;
  patchState : PatchState;
  success : bool;
  filePath : option str       (* [None] is [null] *)
}.

Definition initial : Locals :=
  {| patchBody := []; addedLines := Fin 0; deletedLines := Fin 0;
     ascii := false; patchState := PatchStateStart; success := true;
     filePath := None |}.

Definition setPatchBody (x : str) (v : Locals) : Locals :=
  mkLocals x (addedLines v) (deletedLines v) (ascii v) (patchState v)
           (success v) (filePath v).
Definition setAddedLines (x : number) (v : Locals) : Locals :=
  mkLocals (patchBody v) x (deletedLines v) (ascii v) (patchState v)
           (success v) (filePath v).
Definition setDeletedLines (x : number) (v : Locals) : Locals :=
  mkLocals (patchBody v) (addedLines v) x (ascii v) (patchState v)
           (success v) (filePath v).
Definition setAscii (x : bool) (v : Locals) : Locals :=
  mkLocals (patchBody v) (addedLines v) (deletedLines v) x (patchState v)
           (success v) (filePath v).
Definition setPatchState (x : PatchState) (v : Locals) : Locals :=
  mkLocals (patchBody v) (addedLines v) (deletedLines v) (ascii v) x
           (success v) (filePath v).
Definition setSuccess (x : bool) (v : Locals) : Locals :=
  mkLocals (patchBody v) (addedLines v) (deletedLines v) (ascii v)
           (patchState v) x (filePath v).
Definition setFilePath (x : option str) (v : Locals) : Locals :=
  mkLocals (patchBody v) (addedLines v) (deletedLines v) (ascii v)
           (patchState v) (success v) x.

(** [m[n].toString()]: a group that did not take part is [undefined], and
    the call throws. *)
Definition groupToString (m : caps) (n : nat) : result str :=
  match capture m n with
  | Some s => Ok s
  | None => Throw TypeError
  end.

(** [filePath.endsWith(suffix)]: throws on [null]. *)
Definition pathEndsWith (p : option str) (suffix : str) : result bool :=
  match p with
  | Some s => Ok (endsWith s suffix)
  | None => Throw TypeError
  end.

(** [line[0] == c]: [line[0]] is [undefined] on the empty string. *)
Definition firstIs (line : str) (c : char) : bool :=
  match nth_error line 0 with
  | Some d => N.eqb d c
  | None => false
  end.

(** The branch of the [if / else if] chain that a line takes.  Each
    condition is the source's: a test on the state, then a test on the
    line, the second evaluated only when the first holds. *)
Inductive rule : Type :=
| RuleFileHeader (m : caps)              (* "diff --git" *)
| RuleHunkHeader (m : option caps)       (* "@@ ..." or "GIT binary patch" *)
| RuleBinarySubHeader                    (* "delta n" or "literal n" *)
| RuleHunkLine                           (* a line of a hunk *)
| RuleSignature                          (* "-- " *)
| RuleNone.

Definition condFileHeader (v : Locals) (line : str) : option caps :=
  if PatchState_eqb (patchState v) PatchStateStart
     || PatchState_eqb (patchState v) PatchStateHunkEnd
  then exec regexPatchFileHeader line
  else None.

Definition condHunkHeader (v : Locals) (line : str) : option (option caps) :=
  if PatchState_eqb (patchState v) PatchStateFileHeader
     || PatchState_eqb (patchState v) PatchStateHunkEnd
  then match exec regexPatchHunkAsciiHeader line with
       | Some m => Some (Some m)
       | None => if str_eqb line (js "GIT binary patch") then Some None else None
       end
  else None.

Definition condBinarySubHeader (v : Locals) (line : str) : bool :=
  (PatchState_eqb (patchState v) PatchStateHunkHeader
   || PatchState_eqb (patchState v) PatchStateHunkEnd)
  && match exec regexPatchHunkBinarySubHeader line with
     | Some _ => true
     | None => false
     end.

Definition condHunkLine (v : Locals) : bool :=
  PatchState_eqb (patchState v) PatchStateHunkHeader
  || PatchState_eqb (patchState v) PatchStateHunk.

Definition condSignature (v : Locals) (line : str) : bool :=
  PatchState_eqb (patchState v) PatchStateHunkEnd && str_eqb line (js "-- ").

Definition selectRule (v : Locals) (line : str) : rule :=
  match condFileHeader v line with
  | Some m => RuleFileHeader m
  | None =>
      match condHunkHeader v line with
      | Some m => RuleHunkHeader m
      | None =>
          if condBinarySubHeader v line then RuleBinarySubHeader
          else if condHunkLine v then RuleHunkLine
          else if condSignature v line then RuleSignature
          else RuleNone
      end
  end.

Definition noNewlineMarker : str := js "\ No newline at end of file".

(** The counters after a line of an ascii hunk. *)
Definition countLine (line : str) (v : Locals) : Locals :=
  if negb (str_eqb line noNewlineMarker) && negb (str_eqb line [])
  then
    let v1 := if firstIs line 32%N || firstIs line 43%N
              then setAddedLines (dec (addedLines v)) v else v in
    if firstIs line 32%N || firstIs line 45%N
    then setDeletedLines (dec (deletedLines v1)) v1 else v1
  else v.

(** The body of the branch taken: the new locals and [unixEol].  The
    calls of [console.assert] print and go on; they are left out. *)
Definition applyRule (v : Locals) (line : str) (r : rule)
  : result (Locals * bool) :=
  match r with
  | RuleFileHeader m =>
      let v := setPatchState PatchStateFileHeader v in
      m1 <- groupToString m 1 ;;
      m2 <- groupToString m 2 ;;
      let v := setSuccess (success v && str_eqb m1 m2) v in
      Ok (setFilePath (Some m1) v, true)
  | RuleHunkHeader (Some m) =>
      let v := setPatchState PatchStateHunkHeader v in
      let v := setAscii true v in
      m1 <- groupToString m 1 ;;
      let v := setDeletedLines (parseInt m1) v in
      m2 <- groupToString m 2 ;;
      Ok (setAddedLines (parseInt m2) v, true)
  | RuleHunkHeader None =>
      let v := setPatchState PatchStateHunkHeader v in
      Ok (setAscii false v, true)
  | RuleBinarySubHeader =>
      let v := setSuccess (success v && negb (ascii v)) v in
      Ok (setPatchState PatchStateHunkHeader v, true)
  | RuleHunkLine =>
      let v := setPatchState PatchStateHunk v in
      if ascii v then
        unixEol <- pathEndsWith (filePath v) (js ".sh") ;;
        let v := countLine line v in
        let v := if isZero (addedLines v) && isZero (deletedLines v)
                 then setPatchState PatchStateHunkEnd v else v in
        let v := setSuccess (success v && geZero (addedLines v)
                             && geZero (deletedLines v)) v in
        Ok (v, unixEol)
      else
        match exec regexPatchHunkBinary line with
        | Some _ => Ok (v, true)
        | None => Ok (setPatchState PatchStateHunkEnd v, true)
        end
  | RuleSignature => Ok (setPatchState PatchStateEnd v, true)
  | RuleNone => Ok (v, true)
  end.

(** The test that drops a blank line, made on the locals as the branch
    left them. *)
Definition dropsBlank (v : Locals) (line : str) : bool :=
  (PatchState_eqb (patchState v) PatchStateHunk
   || PatchState_eqb (patchState v) PatchStateHunkEnd)
  && ascii v && str_eqb line [].

Definition eol (unixEol : bool) : str := if unixEol then [LF] else [CR; LF].

(** One iteration of the [for] loop. *)
Definition loopBody (v : Locals) (line : str) : result Locals :=
  r <- applyRule v line (selectRule v line) ;;
  let '(v', unixEol) := r in
  if dropsBlank v' line then Ok v'
  else Ok (setPatchBody (patchBody v' ++ replaceNbsp line ++ eol unixEol) v').

Fixpoint forLines (v : Locals) (lines : list str) : result Locals :=
  match lines with
  | [] => Ok v
  | line :: rest => v' <- loopBody v line ;; forLines v' rest
  end.

(** What follows the loop. *)
Definition finish (v : Locals) : bool * str :=
  (if negb (PatchState_eqb (patchState v) PatchStateEnd) then false
   else success v,
   patchBody v).

(** [convertToPatch] of [src/commands/patchUtils.js]. *)
Definition convertToPatch (bodyText : str) : result (bool * str) :=
  v <- forLines initial (splitLines bodyText) ;;
  Ok (finish v).

(** [convertToPatch] of the sibling copy, which replaces the non-breaking
    spaces of the whole body before it splits it; the loop is the same. *)
Definition convertToPatch_sibling (bodyText : str) : result (bool * str) :=
  v <- forLines initial (splitLines (replaceNbsp bodyText)) ;;
  Ok (finish v).

End Patch.
Export Patch.

(** ** The file-name deriver: [getPatchFileName] *)

Module FileName.

Local Open Scope string_scope.
Local Open Scope list_scope.

(** [/(?:\[edk2-devel\]\s* )?\[PATCH\s*(?:V\d+\s+)?(?:(\d+)\/\d+)?\]\s*(.*?)[.\s]*$/i]
    (written here with a blank before the first closing parenthesis). *)
Definition regexSubject : regex :=
  seq [Opt (Seq (liti (js "[edk2-devel]")) (Star true ws));
       liti (js "[PATCH"); Star true ws;
       Opt (seq [liti (js "V"); Plus digit; Plus ws]);
       Opt (seq [Group 1 (Plus digit); lit (js "/"); Plus digit]);
       lit (js "]"); Star true ws;
       Group 2 (Star false dot);
       Star true (Chr (fun c => N.eqb c 46 || isWhiteSpace c)); Eol].

(** [/[^\x00-\x7F]/] *)
Definition regexNonAscii : regex := Chr (fun c => negb (N.leb c 127)).

(** The class of the second replacement: backslash, slash, star, bar,
    double quote, angle brackets, colon, hash, question mark. *)
Definition isSpecial (c : char) : bool :=
  existsb (N.eqb c) [92; 47; 42; 124; 34; 60; 62; 58; 35; 63]%N.

Definition regexSpecial : regex := Chr isSpecial.

(** [/ +/] *)
Definition regexSpaces : regex := Plus (lit1 SP).

(** [s.replace(r, rep)] for [r] with the [g] flag and [rep] without [$]:
    from left to right, each match is replaced and the scan resumes after
    it (one code unit further after an empty match).  [skip] counts the
    code units of the last match that are still to be passed over. *)
Fixpoint replaceFrom (r : regex) (rep : str) (s : str) (i skip : nat) : str :=
  match skip with
  | S n =>
      match s with
      | _ :: s' => replaceFrom r rep s' (S i) n
      | [] => []
      end
  | O =>
      match matchAt r s i with
      | Some m =>
          let len := match capture m 0 with Some w => length w | None => 0 end in
          rep ++ match s with
                 | a :: s' =>
                     match len with
                     | O => a :: replaceFrom r rep s' (S i) 0
                     | S n => replaceFrom r rep s' (S i) n
                     end
                 | [] => []
                 end
      | None =>
          match s with
          | a :: s' => a :: replaceFrom r rep s' (S i) 0
          | [] => []
          end
      end
  end.

Definition replaceG (r : regex) (rep : str) (s : str) : str :=
  replaceFrom r rep s 0 0.

(** [s.padStart(4, "0")] *)
Definition padStart4 (s : str) : str := repeat 48%N (4 - length s) ++ s.

Section Runtime.

(** [Number.prototype.toString] prints an integer up to 2^53 in magnitude
    as its decimal digits.  Above, ECMAScript asks for a shortest digit
    string that reads back as the same binary64 and leaves its last digit
    to the implementation: that part of the runtime is a parameter. *)
Variable bigToString : Z -> str.

Definition numberToString (x : number) : str :=
  match x with
  | Fin z =>
      if (Z.abs z <=? 2 ^ 53)%Z then
        if (z <? 0)%Z then js "-" ++ decimal (Z.to_N (- z))
        else decimal (Z.to_N z)
      else bigToString z
  | PInf => js "Infinity"
  | NInf => js "-Infinity"
  | NaN => js "NaN"
  end.

(** [parseInt(match[1]) || 1]: an [undefined] group reads as NaN, and NaN
    and 0 are falsy. *)
Definition patchIndexOf (g : option str) : number :=
  match g with
  | None => Fin 1
  | Some s =>
      match parseInt s with
      | NaN => Fin 1
      | Fin z => if (z =? 0)%Z then Fin 1 else Fin z
      | x => x
      end
  end.

(** A group inside a template literal: [undefined] prints as such. *)
Definition groupText (g : option str) : str :=
  match g with
  | Some s => s
  | None => js "undefined"
  end.

(** The name before the suffixes are appended. *)
Definition stem (subject : str) : str :=
  let mailSubject :=
    match exec regexSubject subject with
    | Some m =>
        let patchIndex := patchIndexOf (capture m 1) in
        padStart4 (numberToString patchIndex) ++ js "-" ++ groupText (capture m 2)
    | None => subject
    end in
  replaceG regexSpaces (js "-")
    (replaceG regexSpecial (js " ")
       (replaceG regexNonAscii (js " ") mailSubject)).

Definition getPatchFileName (subject : str) (success : bool) : str :=
  let mailSubject := stem subject in
  let mailSubject :=
    if negb success then mailSubject ++ js ".warning" else mailSubject in
  mailSubject ++ js ".patch".

End Runtime.

End FileName.
Export FileName.

(** ** What a regular expression denotes

    [Run r s i c s' i' c']: from the input [s] at the position [i] with
    the captures [c], the pattern [r] can consume down to [s'], reaching
    the position [i'] with the captures [c'].  The relation has no notion
    of priority; the matcher explores it in priority order. *)

Module Semantics.

Inductive Run : regex -> str -> nat -> caps -> str -> nat -> caps -> Prop :=
| RunEps s i c :
    Run Eps s i c s i c
| RunChr (p : char -> bool) a s i c :
    p a = true ->
    Run (Chr p) (a :: s) i c s (S i) c
| RunSeq r1 r2 s i c s1 i1 c1 s2 i2 c2 :
    Run r1 s i c s1 i1 c1 ->
    Run r2 s1 i1 c1 s2 i2 c2 ->
    Run (Seq r1 r2) s i c s2 i2 c2
| RunAltL r1 r2 s i c s1 i1 c1 :
    Run r1 s i c s1 i1 c1 ->
    Run (Alt r1 r2) s i c s1 i1 c1
| RunAltR r1 r2 s i c s1 i1 c1 :
    Run r2 s i c s1 i1 c1 ->
    Run (Alt r1 r2) s i c s1 i1 c1
| RunStarNil g r s i c :
    Run (Star g r) s i c s i c
| RunStarCons g r s i c s1 i1 c1 s2 i2 c2 :
    Run r s i c s1 i1 c1 ->
    length s1 < length s ->
    Run (Star g r) s1 i1 c1 s2 i2 c2 ->
    Run (Star g r) s i c s2 i2 c2
| RunGroup n r s i c s1 i1 c1 :
    Run r s i c s1 i1 c1 ->
    Run (Group n r) s i c s1 i1 ((n, firstn (length s - length s1) s) :: c1)
| RunBol s c :
    Run Bol s 0 c s 0 c
| RunEol i c :
    Run Eol [] i c [] i c.

(** Whether every way through [r] passes through the group [n]. *)
Fixpoint defines (n : nat) (r : regex) : bool :=
  match r with
  | Group m r1 => Nat.eqb m n || defines n r1
  | Seq r1 r2 => defines n r1 || defines n r2
  | Alt r1 r2 => defines n r1 && defines n r2
  | _ => false
  end.

End Semantics.
Export Semantics.

(** ** The vocabulary of the properties *)

Module Vocabulary.

(** The file-header pattern from the end of its first group on:
    [\s+b(\/.* )$]. *)
Definition fileHeaderTail : regex :=
  seq [Plus ws; lit (js "b"); Group 2 (Seq (lit (js "/")) (Star true dot));
       Eol].

(** A text that [.*] can match whole: it holds no line terminator. *)
Definition dotText (s : str) : Prop :=
  Forall (fun a => negb (isLineTerminator a) = true) s.

(** A run of decimal digits, one at least. *)
Definition digitText (s : str) : Prop :=
  s <> [] /\ Forall (fun a => isDigit a = true) s.

(** One side of a hunk header, after its sign: ["start,count"], or one
    number alone. *)
Definition headerSide (start : option str) (last : str) : str :=
  match start with
  | Some x => x ++ 44%N :: last
  | None => last
  end.

(** The hunk header ["@@ -side1 +side2 @@rest"]. *)
Definition hunkHeaderLine (start1 : option str) (last1 : str)
           (start2 : option str) (last2 : str) (rest : str) : str :=
  js "@@ -" ++ headerSide start1 last1 ++ js " +" ++ headerSide start2 last2
  ++ js " @@" ++ rest.

(** The three violations that a line can record, each read off the
    conjunct that the branch taken adds to [success]. *)
Definition pathMismatch (v : Locals) (line : str) : bool :=
  match selectRule v line with
  | RuleFileHeader m =>
      match capture m 1, capture m 2 with
      | Some m1, Some m2 => negb (str_eqb m1 m2)
      | _, _ => false
      end
  | _ => false
  end.

Definition modeConflict (v : Locals) (line : str) : bool :=
  match selectRule v line with
  | RuleBinarySubHeader => ascii v
  | _ => false
  end.

Definition counterNegative (v : Locals) (line : str) : bool :=
  match selectRule v line with
  | RuleHunkLine =>
      ascii v
      && (let v' := countLine line v in
          negb (geZero (addedLines v')) || negb (geZero (deletedLines v')))
  | _ => false
  end.

Definition violation (v : Locals) (line : str) : bool :=
  pathMismatch v line || modeConflict v line || counterNegative v line.

(** Whether some line of [lines], scanned from [v] on, records a
    violation. *)
Fixpoint violated (v : Locals) (lines : list str) : bool :=
  match lines with
  | [] => false
  | line :: rest =>
      violation v line
      || match loopBody v line with
         | Ok v' => violated v' rest
         | Throw _ => false
         end
  end.

(** The locals with which the line number [n] of [lines] is met. *)
Definition localsAt (lines : list str) (n : nat) : result Locals :=
  forLines initial (firstn n lines).

(** A line that is the content of an ascii hunk: the fourth branch is
    taken while the hunk is ascii. *)
Definition asciiHunkContent (v : Locals) (line : str) : bool :=
  match selectRule v line with
  | RuleHunkLine => ascii v
  | _ => false
  end.

(** A line that is the content of a binary hunk. *)
Definition binaryHunkContent (v : Locals) (line : str) : bool :=
  match selectRule v line with
  | RuleHunkLine => negb (ascii v)
  | _ => false
  end.

(** Whether the current file is a shell script. *)
Definition shellScript (v : Locals) : bool :=
  match filePath v with
  | Some p => endsWith p (js ".sh")
  | None => false
  end.

(** Whether the line goes to the output: it does unless it is blank and
    the locals, as the branch left them, are in an ascii hunk. *)
Definition emitted (v : Locals) (line : str) : bool :=
  match applyRule v line (selectRule v line) with
  | Ok (v', _) => negb (dropsBlank v' line)
  | Throw _ => false
  end.

(** A line of an ascii hunk that is looked at for the counters: neither
    the no-newline marker nor blank. *)
Definition counted (line : str) : bool :=
  negb (str_eqb line noNewlineMarker) && negb (str_eqb line []).

(** The lines of an ascii hunk that count: a line that begins with a
    space or [-] counts as deleted, one that begins with a space or [+] as
    added (a context line counts as both). *)
Definition deleteLine (line : str) : bool :=
  firstIs line 32%N || firstIs line 45%N.

Definition addLine (line : str) : bool :=
  firstIs line 32%N || firstIs line 43%N.

Definition contentLine (line : str) : bool := deleteLine line || addLine line.

(** What a line uses up of a count. *)
Definition used (b : bool) : Z := if b then 1%Z else 0%Z.

Definition deleteCount (lines : list str) : Z :=
  Z.of_nat (length (filter deleteLine lines)).

Definition addCount (lines : list str) : Z :=
  Z.of_nat (length (filter addLine lines)).

(** The hunk of counts [(D, A)] is still open when the last of [lines] is
    fed: no part of them short of the whole has used up both counts. *)
Definition stillOpen (D A : Z) (lines : list str) : Prop :=
  forall k, 0 < k < length lines ->
    ~ (deleteCount (firstn k lines) = D /\ addCount (firstn k lines) = A).

(** Past the start state the path of the current file is known. *)
Definition pathKnown (v : Locals) : Prop :=
  patchState v <> PatchStateStart -> filePath v <> None.

(** The locals are in the context of an ascii hunk. *)
Definition inAsciiHunk (v : Locals) : bool :=
  (PatchState_eqb (patchState v) PatchStateHunk
   || PatchState_eqb (patchState v) PatchStateHunkEnd)
  && ascii v.

(** The locals with which a blank line is dropped: an ascii hunk is
    current and the state is [HunkHeader], [Hunk] or [HunkEnd]. *)
Definition blankDropped (v : Locals) : bool :=
  ascii v
  && (PatchState_eqb (patchState v) PatchStateHunkHeader
      || PatchState_eqb (patchState v) PatchStateHunk
      || PatchState_eqb (patchState v) PatchStateHunkEnd).

(** The text that the scan of [lines] from [v] appends when each line that
    goes to the output ends with [terminator v line]. *)
Fixpoint textWith (terminator : Locals -> str -> str) (v : Locals)
         (lines : list str) : str :=
  match lines with
  | [] => []
  | line :: rest =>
      (if emitted v line then replaceNbsp line ++ terminator v line else [])
      ++ match loopBody v line with
         | Ok v' => textWith terminator v' rest
         | Throw _ => []
         end
  end.

(** Line feed everywhere, except for the content of an ascii hunk of a
    file that is not a shell script. *)
Definition terminator (v : Locals) (line : str) : str :=
  if asciiHunkContent v line && negb (shellScript v) then [CR; LF] else [LF].

(** Carriage return and line feed everywhere, except for the content of
    an ascii hunk of a shell script and for the content of a binary
    hunk. *)
Definition terminatorCrlfByDefault (v : Locals) (line : str) : str :=
  if (asciiHunkContent v line && shellScript v) || binaryHunkContent v line
  then [LF] else [CR; LF].

(** [b] is [a] with every non-breaking space replaced by an ordinary
    space and every other code unit kept. *)
Definition spaced (a b : str) : Prop :=
  Forall2 (fun c d => (c = NBSP /\ d = SP) \/ (c <> NBSP /\ d = c)) a b.

(** The number of non-breaking spaces of a text. *)
Definition nbspCount (s : str) : nat := count_occ N.eq_dec s NBSP.

(** The text that the scan of [lines] from [v] would append if each line
    that goes to the output were written as it is met, before any
    replacement. *)
Fixpoint textAsMet (terminator : Locals -> str -> str) (v : Locals)
         (lines : list str) : str :=
  match lines with
  | [] => []
  | line :: rest =>
      (if emitted v line then line ++ terminator v line else [])
      ++ match loopBody v line with
         | Ok v' => textAsMet terminator v' rest
         | Throw _ => []
         end
  end.

End Vocabulary.
Export Vocabulary.

(** * Properties *)

Unset Implicit Arguments.
(** ** The matcher against the relation *)

Module RegexFacts.

Section Matcher.

Variable A : Type.

Local Abbreviation body r := (fun s' i' c' k' => @rmatch A r s' i' c' k').

(** Whatever the matcher finds, the relation allows. *)
Lemma starLoop_sound (g : bool) (r : regex) :
  (forall s i c (k : cont A) x,
      rmatch r s i c k = Some x ->
      exists s' i' c', Run r s i c s' i' c' /\ k s' i' c' = Some x) ->
  forall n s i c (k : cont A) x,
    starLoop g (body r) k n s i c = Some x ->
    exists s' i' c', Run (Star g r) s i c s' i' c' /\ k s' i' c' = Some x.
Proof.
  intros IH n.
  induction n as [|n IHn]; intros s i c k x H.
  - destruct g; simpl in H; unfold orElse in H.
    + exists s, i, c. split; [constructor | exact H].
    + destruct (k s i c) eqn:E; [|discriminate].
      exists s, i, c. split; [constructor | congruence].
  - assert (Hiter : forall y,
              rmatch r s i c
                (fun s' i' c' =>
                   if length s' <? length s
                   then starLoop g (body r) k n s' i' c' else None) = Some y ->
              exists s' i' c', Run (Star g r) s i c s' i' c' /\ k s' i' c' = Some y).
    { intros y Hy.
      apply IH in Hy. destruct Hy as (s1 & i1 & c1 & R1 & Hy).
      destruct (length s1 <? length s) eqn:E; [|discriminate].
      apply Nat.ltb_lt in E.
      apply IHn in Hy. destruct Hy as (s2 & i2 & c2 & R2 & Hy).
      exists s2, i2, c2. split; [|exact Hy].
      eapply RunStarCons; eauto. }
    destruct g; simpl in H; unfold orElse in H.
    + match type of H with
      | match ?e with _ => _ end = _ => destruct e eqn:E
      end.
      * inversion H; subst. apply (Hiter x eq_refl).
      * exists s, i, c. split; [constructor | exact H].
    + destruct (k s i c) eqn:E.
      * inversion H; subst. exists s, i, c. split; [constructor | exact E].
      * apply Hiter. exact H.
Qed.

Lemma rmatch_sound (r : regex) :
  forall s i c (k : cont A) x,
    rmatch r s i c k = Some x ->
    exists s' i' c', Run r s i c s' i' c' /\ k s' i' c' = Some x.
Proof.
  induction r as [|p|r1 IH1 r2 IH2|r1 IH1 r2 IH2|g r IH|n r IH| |];
    intros s i c k x H; simpl in H.
  - exists s, i, c. split; [constructor | exact H].
  - destruct s as [|a s]; [discriminate|].
    destruct (p a) eqn:E; [|discriminate].
    exists s, (S i), c. split; [constructor; exact E | exact H].
  - apply IH1 in H. destruct H as (s1 & i1 & c1 & R1 & H).
    apply IH2 in H. destruct H as (s2 & i2 & c2 & R2 & H).
    exists s2, i2, c2. split; [econstructor; eauto | exact H].
  - unfold orElse in H.
    destruct (rmatch r1 s i c k) eqn:E.
    + inversion H; subst. apply IH1 in E.
      destruct E as (s1 & i1 & c1 & R1 & E).
      exists s1, i1, c1. split; [apply RunAltL; exact R1 | exact E].
    + apply IH2 in H. destruct H as (s1 & i1 & c1 & R1 & H).
      exists s1, i1, c1. split; [apply RunAltR; exact R1 | exact H].
  - eapply starLoop_sound; eauto.
  - apply IH in H. destruct H as (s1 & i1 & c1 & R1 & H).
    eexists _, _, _. split; [apply RunGroup; exact R1 | exact H].
  - destruct (Nat.eqb i 0) eqn:E; [|discriminate].
    apply Nat.eqb_eq in E. subst.
    exists s, 0, c. split; [constructor | exact H].
  - destruct s; [|discriminate].
    exists [], i, c. split; [constructor | exact H].
Qed.

(** Whatever the relation allows, the matcher does not miss: it succeeds,
    possibly on another way through the pattern that it tries earlier. *)
Lemma rmatch_complete_gen {r s i c s' i' c'} :
  Run r s i c s' i' c' ->
  forall (k : cont A) x,
    k s' i' c' = Some x ->
    (exists y, rmatch r s i c k = Some y)
    /\ (forall g r1, r = Star g r1 ->
        forall n, length s <= n ->
        exists y, starLoop g (body r1) k n s i c = Some y).
Proof.
  induction 1 as
    [s i c|p a s i c Hp|r1 r2 s i c s1 i1 c1 s2 i2 c2 R1 IH1 R2 IH2
    |r1 r2 s i c s1 i1 c1 R1 IH1|r1 r2 s i c s1 i1 c1 R1 IH1
    |g r s i c|g r s i c s1 i1 c1 s2 i2 c2 R1 IH1 Hlt R2 IH2
    |n r s i c s1 i1 c1 R1 IH1|s c|i c];
    intros k x Hk.
  - split; [simpl; eauto | discriminate].
  - split; [simpl; rewrite Hp; eauto | discriminate].
  - split; [|discriminate]. simpl.
    destruct (IH2 k x Hk) as [[y Hy] _].
    destruct (IH1 (fun s' i' c' => rmatch r2 s' i' c' k) y Hy) as [Hz _].
    exact Hz.
  - split; [|discriminate]. simpl. unfold orElse.
    destruct (IH1 k x Hk) as [[y Hy] _]. rewrite Hy. eauto.
  - split; [|discriminate]. simpl. unfold orElse.
    destruct (rmatch r1 s i c k); [eauto|].
    destruct (IH1 k x Hk) as [Hy _]. exact Hy.
  - assert (G : forall n, exists y, starLoop g (body r) k n s i c = Some y).
    { intros n. destruct g, n; simpl; unfold orElse; rewrite ?Hk; eauto.
      match goal with
      | |- exists y, match ?e with _ => _ end = _ => destruct e; eauto
      end. }
    split; [simpl; apply G|].
    intros g' r1 E n _. inversion E; subst. apply G.
  - assert (G : forall n, length s <= n ->
                exists y, starLoop g (body r) k n s i c = Some y).
    { intros n Hn. destruct n as [|n]; [lia|].
      destruct (IH2 k x Hk) as [_ IH2'].
      destruct (IH2' g r eq_refl n ltac:(lia)) as [y Hy].
      assert (Hit : exists z,
                 rmatch r s i c
                   (fun s' i' c' =>
                      if length s' <? length s
                      then starLoop g (body r) k n s' i' c' else None)
                 = Some z).
      { eapply IH1. apply Nat.ltb_lt in Hlt. rewrite Hlt. exact Hy. }
      destruct Hit as [z Hz].
      destruct g; simpl; unfold orElse.
      - rewrite Hz. eauto.
      - destruct (k s i c); [eauto|]. rewrite Hz. eauto. }
    split; [simpl; apply G; lia|].
    intros g' r1 E n Hn. inversion E; subst. apply G. exact Hn.
  - split; [|discriminate]. simpl.
    apply (IH1 (fun s' i' c' =>
                  k s' i' ((n, firstn (length s - length s') s) :: c')) x Hk).
  - split; [simpl; eauto | discriminate].
  - split; [simpl; eauto | discriminate].
Qed.

Lemma rmatch_complete {r s i c s' i' c'} (k : cont A) {x} :
  Run r s i c s' i' c' ->
  k s' i' c' = Some x ->
  exists y, rmatch r s i c k = Some y.
Proof.
  intros R Hk. exact (proj1 (rmatch_complete_gen R k x Hk)).
Qed.

End Matcher.

(** A run consumes a prefix of the input and counts it. *)
Lemma Run_suffix {r s i c s' i' c'} :
  Run r s i c s' i' c' ->
  exists pre, s = pre ++ s' /\ i' = i + length pre.
Proof.
  induction 1 as
    [s i c|p a s i c Hp|r1 r2 s i c s1 i1 c1 s2 i2 c2 R1 IH1 R2 IH2
    |r1 r2 s i c s1 i1 c1 R1 IH1|r1 r2 s i c s1 i1 c1 R1 IH1
    |g r s i c|g r s i c s1 i1 c1 s2 i2 c2 R1 IH1 Hlt R2 IH2
    |n r s i c s1 i1 c1 R1 IH1|s c|i c];
    try (exists []; simpl; split; [reflexivity | lia]).
  - exists [a]. simpl. split; [reflexivity | lia].
  - destruct IH1 as (p1 & -> & ->). destruct IH2 as (p2 & -> & ->).
    exists (p1 ++ p2). rewrite length_app, app_assoc. split; [reflexivity | lia].
  - exact IH1.
  - exact IH1.
  - destruct IH1 as (p1 & -> & ->). destruct IH2 as (p2 & -> & ->).
    exists (p1 ++ p2). rewrite length_app, app_assoc. split; [reflexivity | lia].
  - exact IH1.
Qed.

(** A group that every way through the pattern passes through is set
    after a run, and a run unsets nothing. *)
Lemma Run_defines {r s i c s' i' c'} :
  Run r s i c s' i' c' ->
  forall n, defines n r = true \/ capture c n <> None -> capture c' n <> None.
Proof.
  induction 1 as
    [s i c|p a s i c Hp|r1 r2 s i c s1 i1 c1 s2 i2 c2 R1 IH1 R2 IH2
    |r1 r2 s i c s1 i1 c1 R1 IH1|r1 r2 s i c s1 i1 c1 R1 IH1
    |g r s i c|g r s i c s1 i1 c1 s2 i2 c2 R1 IH1 Hlt R2 IH2
    |n r s i c s1 i1 c1 R1 IH1|s c|i c];
    intros m H; simpl in H;
    try (destruct H as [H|H]; [discriminate | exact H]).
  - apply IH2. destruct H as [H|H].
    + apply orb_true_iff in H. destruct H as [H|H]; [|left; exact H].
      right. apply IH1. left. exact H.
    + right. apply IH1. right. exact H.
  - apply IH1. destruct H as [H|H]; [|right; exact H].
    apply andb_true_iff in H. left. apply H.
  - apply IH1. destruct H as [H|H]; [|right; exact H].
    apply andb_true_iff in H. left. apply H.
  - apply IH2. right. apply IH1. right.
    destruct H as [H|H]; [discriminate | exact H].
  - simpl. destruct (Nat.eqb n m) eqn:E; [discriminate|].
    apply IH1. destruct H as [H|H]; [|right; exact H].
    simpl in H. left. exact H.
Qed.

(** What [exec] returns comes from one attempt, at some position. *)
Lemma search_matchAt {r s i m} :
  search r s i = Some m ->
  exists pre s0, s = pre ++ s0 /\ matchAt r s0 (i + length pre) = Some m.
Proof.
  revert i. induction s as [|a s IH]; intros i H; simpl in H.
  - destruct (matchAt r [] i) eqn:E; [|discriminate].
    inversion H; subst. exists [], []. simpl. rewrite Nat.add_0_r. auto.
  - destruct (matchAt r (a :: s) i) eqn:E.
    + inversion H; subst. exists [], (a :: s). simpl. rewrite Nat.add_0_r. auto.
    + apply IH in H. destruct H as (pre & s0 & -> & H).
      exists (a :: pre), s0. simpl. split; [reflexivity|].
      rewrite <- H. f_equal. lia.
Qed.

Lemma matchAt_Run {r s i m} :
  matchAt r s i = Some m ->
  exists s' i' c',
    Run r s i [] s' i' c' /\ m = (0, firstn (length s - length s') s) :: c'.
Proof.
  unfold matchAt. intros H. apply rmatch_sound in H.
  destruct H as (s' & i' & c' & R & H).
  exists s', i', c'. split; [exact R | congruence].
Qed.

Lemma exec_defines {r s m} n :
  exec r s = Some m -> defines n r = true -> exists t, capture m n = Some t.
Proof.
  unfold exec. intros H D.
  apply search_matchAt in H. destruct H as (pre & s0 & _ & H).
  apply matchAt_Run in H. destruct H as (s' & i' & c' & R & ->).
  simpl. destruct n as [|n]; simpl; [eauto|].
  pose proof (Run_defines R (S n) (or_introl D)) as G.
  destruct (capture c' (S n)); [eauto | congruence].
Qed.

(** A pattern that opens with [^] is tried with success at the start
    only. *)
Lemma search_Bol r s i : search (Seq Bol r) s (S i) = None.
Proof.
  revert i. induction s as [|a s IH]; intros i; simpl; [reflexivity | apply IH].
Qed.

Lemma exec_Bol r s : exec (Seq Bol r) s = matchAt (Seq Bol r) s 0.
Proof.
  unfold exec. destruct s as [|a s]; simpl.
  - destruct (matchAt (Seq Bol r) [] 0); reflexivity.
  - destruct (matchAt (Seq Bol r) (a :: s) 0); [reflexivity | apply search_Bol].
Qed.

Lemma str_eqb_refl a : str_eqb a a = true.
Proof.
  induction a as [|x a IH]; simpl; [reflexivity|].
  rewrite N.eqb_refl. exact IH.
Qed.

Lemma str_eqb_eq a b : str_eqb a b = true <-> a = b.
Proof.
  split; [|intros ->; apply str_eqb_refl].
  revert b. induction a as [|x a IH]; intros [|y b] H; simpl in H;
    try discriminate; [reflexivity|].
  apply andb_true_iff in H. destruct H as [H1 H2].
  apply N.eqb_eq in H1. apply IH in H2. congruence.
Qed.

Lemma str_eqb_neq a b : str_eqb a b = false <-> a <> b.
Proof.
  rewrite <- str_eqb_eq. destruct (str_eqb a b); split; congruence.
Qed.

End RegexFacts.

(** ** Quantified classes and literals *)

Module ClassFacts.

Import RegexFacts.

(** A run of [c*], for a class [c], consumes code units of the class and
    leaves the captures alone; and every prefix in the class is a run. *)
Lemma Run_star_class_inv g p s i c s' i' c' :
  Run (Star g (Chr p)) s i c s' i' c' ->
  exists pre,
    s = pre ++ s' /\ Forall (fun a => p a = true) pre
    /\ i' = i + length pre /\ c' = c.
Proof.
  intros R. remember (Star g (Chr p)) as r eqn:Er.
  induction R as
    [s i c|q a s i c Hp|r1 r2 s i c s1 i1 c1 s2 i2 c2 R1 IH1 R2 IH2
    |r1 r2 s i c s1 i1 c1 R1 IH1|r1 r2 s i c s1 i1 c1 R1 IH1
    |g0 r s i c|g0 r s i c s1 i1 c1 s2 i2 c2 R1 IH1 Hlt R2 IH2
    |n r s i c s1 i1 c1 R1 IH1|s c|i c];
    try discriminate.
  - exists []. simpl. repeat split; auto.
  - injection Er as -> ->.
    destruct (IH2 eq_refl) as (pre & -> & F & -> & ->).
    inversion R1; subst.
    exists (a :: pre). simpl. repeat split; auto; lia.
Qed.

Lemma Run_star_class g p pre s i c :
  Forall (fun a => p a = true) pre ->
  Run (Star g (Chr p)) (pre ++ s) i c s (i + length pre) c.
Proof.
  revert i. induction pre as [|a pre IH]; intros i F; simpl.
  - rewrite Nat.add_0_r. constructor.
  - inversion F as [|? ? Ha Fp]; subst.
    eapply RunStarCons.
    + constructor. exact Ha.
    + simpl. lia.
    + replace (i + S (length pre)) with (S i + length pre) by lia.
      apply IH. exact Fp.
Qed.

Section Matcher.

Variable A : Type.

(** When [c*] fails, the continuation fails after every prefix in the
    class. *)
Lemma star_class_none g p s i c (k : cont A) :
  rmatch (Star g (Chr p)) s i c k = None ->
  forall pre suf,
    s = pre ++ suf -> Forall (fun a => p a = true) pre ->
    k suf (i + length pre) c = None.
Proof.
  intros H pre suf -> F.
  destruct (k suf (i + length pre) c) as [x|] eqn:E; [|reflexivity].
  destruct (rmatch_complete A k (Run_star_class g p pre suf i c F) E) as [y Hy].
  congruence.
Qed.

(** One step of the greedy [c*]. *)
Lemma star_class_unfold p a s i c (k : cont A) :
  rmatch (Star true (Chr p)) (a :: s) i c k =
  if p a
  then match rmatch (Star true (Chr p)) s (S i) c k with
       | Some x => Some x
       | None => k (a :: s) i c
       end
  else k (a :: s) i c.
Proof.
  cbn [rmatch length starLoop]. unfold orElse at 1. cbn [rmatch].
  destruct (p a); [|reflexivity].
  assert (Lt : (length s <? S (length s)) = true) by (apply Nat.ltb_lt; lia).
  rewrite Lt. reflexivity.
Qed.

(** The greedy [c*] hands over to the continuation after the longest
    prefix in the class after which the continuation succeeds. *)
Lemma star_class_greedy p s :
  forall i c (k : cont A) x,
    rmatch (Star true (Chr p)) s i c k = Some x ->
    exists pre suf,
      s = pre ++ suf /\ Forall (fun a => p a = true) pre
      /\ k suf (i + length pre) c = Some x
      /\ forall pre' suf',
           s = pre' ++ suf' -> Forall (fun a => p a = true) pre' ->
           length pre < length pre' ->
           k suf' (i + length pre') c = None.
Proof.
  induction s as [|a s IH]; intros i c k x H.
  - simpl in H. exists [], []. simpl. rewrite Nat.add_0_r.
    repeat split; auto.
    intros pre' suf' E _ L. destruct pre'; simpl in *; [lia | discriminate].
  - rewrite star_class_unfold in H.
    destruct (p a) eqn:Ea.
    + destruct (rmatch (Star true (Chr p)) s (S i) c k) as [y|] eqn:E.
      * injection H as ->.
        destruct (IH _ _ _ _ E) as (pre & suf & -> & F & Hk & M).
        exists (a :: pre), suf. simpl.
        replace (i + S (length pre)) with (S i + length pre) by lia.
        repeat split; auto.
        intros pre' suf' E' F' L.
        destruct pre' as [|a' pre']; [simpl in L; lia|].
        simpl in E'. injection E' as <- E'.
        inversion F' as [|? ? Fa Fp]; subst.
        simpl length in *.
        replace (i + S (length pre')) with (S i + length pre') by lia.
        apply M; auto. lia.
      * exists [], (a :: s). simpl. rewrite Nat.add_0_r.
        repeat split; auto.
        intros pre' suf' E' F' L.
        destruct pre' as [|a' pre']; [simpl in L; lia|].
        simpl in E'. injection E' as <- E'.
        inversion F' as [|? ? Fa Fp]; subst.
        simpl length.
        replace (i + S (length pre')) with (S i + length pre') by lia.
        exact (star_class_none true p _ _ _ _ E pre' suf' eq_refl Fp).
    + exists [], (a :: s). simpl. rewrite Nat.add_0_r.
      repeat split; auto.
      intros pre' suf' E' F' L.
      destruct pre' as [|a' pre']; [simpl in L; lia|].
      simpl in E'. injection E' as <- E'.
      inversion F' as [|? ? Fa Fp]; subst. congruence.
Qed.

(** [c*] stops at once before a code unit outside the class. *)
Lemma star_class_stop p a s i c (k : cont A) :
  p a = false ->
  rmatch (Star true (Chr p)) (a :: s) i c k = k (a :: s) i c.
Proof.
  intros H. rewrite star_class_unfold, H. reflexivity.
Qed.

(** A literal consumes itself. *)
Lemma rmatch_lit w s i c (k : cont A) :
  rmatch (lit w) (w ++ s) i c k = k s (i + length w) c.
Proof.
  revert i. induction w as [|a w IH]; intros i.
  - simpl. rewrite Nat.add_0_r. reflexivity.
  - destruct w as [|b w].
    + simpl. rewrite N.eqb_refl. f_equal. lia.
    + change (lit (a :: b :: w)) with (Seq (lit1 a) (lit (b :: w))).
      cbn [rmatch lit1 app]. rewrite N.eqb_refl.
      change (b :: w ++ s) with ((b :: w) ++ s). rewrite IH.
      f_equal. simpl. lia.
Qed.

End Matcher.

End ClassFacts.

(** ** The loop of [convertToPatch] *)

Module PatchFacts.

Import RegexFacts.

Lemma PatchState_eqb_eq a b : PatchState_eqb a b = true <-> a = b.
Proof. destruct a, b; simpl; split; congruence. Qed.

(** What the choice of a branch tells about the state and the line. *)
Lemma selectRule_cases v line :
  match selectRule v line with
  | RuleFileHeader m =>
      exec regexPatchFileHeader line = Some m
      /\ (patchState v = PatchStateStart \/ patchState v = PatchStateHunkEnd)
  | RuleHunkHeader (Some m) =>
      exec regexPatchHunkAsciiHeader line = Some m
      /\ (patchState v = PatchStateFileHeader
          \/ patchState v = PatchStateHunkEnd)
  | RuleHunkHeader None =>
      line = js "GIT binary patch"
      /\ (patchState v = PatchStateFileHeader
          \/ patchState v = PatchStateHunkEnd)
  | RuleBinarySubHeader =>
      exec regexPatchHunkBinarySubHeader line <> None
      /\ (patchState v = PatchStateHunkHeader
          \/ patchState v = PatchStateHunkEnd)
  | RuleHunkLine =>
      patchState v = PatchStateHunkHeader \/ patchState v = PatchStateHunk
  | RuleSignature =>
      patchState v = PatchStateHunkEnd /\ line = js "-- "
  | RuleNone => True
  end.
Proof.
  unfold selectRule.
  destruct (condFileHeader v line) as [m|] eqn:E1.
  { unfold condFileHeader in E1.
    destruct (patchState v); simpl in E1; try discriminate; auto. }
  destruct (condHunkHeader v line) as [[m|]|] eqn:E2.
  { unfold condHunkHeader in E2.
    destruct (patchState v); cbn [PatchState_eqb orb] in E2; try discriminate;
      destruct (exec regexPatchHunkAsciiHeader line);
      try (destruct (str_eqb line (js "GIT binary patch")));
      inversion E2; subst; auto. }
  { unfold condHunkHeader in E2.
    destruct (patchState v); cbn [PatchState_eqb orb] in E2; try discriminate;
      destruct (exec regexPatchHunkAsciiHeader line); try discriminate;
      destruct (str_eqb line (js "GIT binary patch")) eqn:E;
      try discriminate; apply str_eqb_eq in E; auto. }
  destruct (condBinarySubHeader v line) eqn:E3.
  { unfold condBinarySubHeader in E3.
    destruct (patchState v); cbn [PatchState_eqb orb andb] in E3; try discriminate;
      destruct (exec regexPatchHunkBinarySubHeader line);
      try discriminate; split; auto; discriminate. }
  destruct (condHunkLine v) eqn:E4.
  { unfold condHunkLine in E4.
    destruct (patchState v); simpl in E4; try discriminate; auto. }
  destruct (condSignature v line) eqn:E5; [|exact I].
  unfold condSignature in E5.
  destruct (patchState v); cbn [PatchState_eqb orb andb] in E5; try discriminate.
  apply str_eqb_eq in E5. auto.
Qed.

(** Both groups of a file header and of a hunk header took part in the
    match, so [toString] is called on a string. *)
Lemma fileHeader_groups {line m} :
  exec regexPatchFileHeader line = Some m ->
  exists m1 m2, capture m 1 = Some m1 /\ capture m 2 = Some m2.
Proof.
  intros H.
  destruct (exec_defines 1 H eq_refl) as [m1 H1].
  destruct (exec_defines 2 H eq_refl) as [m2 H2].
  eauto.
Qed.

Lemma hunkHeader_groups {line m} :
  exec regexPatchHunkAsciiHeader line = Some m ->
  exists m1 m2, capture m 1 = Some m1 /\ capture m 2 = Some m2.
Proof.
  intros H.
  destruct (exec_defines 1 H eq_refl) as [m1 H1].
  destruct (exec_defines 2 H eq_refl) as [m2 H2].
  eauto.
Qed.

(** One iteration neither throws nor loses the path, once the path is
    known past the start state. *)
Lemma applyRule_ok {v} line :
  pathKnown v ->
  exists v1 unixEol,
    applyRule v line (selectRule v line) = Ok (v1, unixEol) /\ pathKnown v1.
Proof.
  intros K. pose proof (selectRule_cases v line) as C.
  destruct (selectRule v line) as [m|[m|]| | | |]; simpl.
  - destruct C as [C _]. destruct (fileHeader_groups C) as (m1 & m2 & H1 & H2).
    unfold groupToString. rewrite H1, H2. simpl.
    eexists _, _. split; [reflexivity|]. intros _. discriminate.
  - destruct C as [C S]. destruct (hunkHeader_groups C) as (m1 & m2 & H1 & H2).
    unfold groupToString. rewrite H1, H2. simpl.
    eexists _, _. split; [reflexivity|]. intros _. simpl.
    apply K. destruct S as [S|S]; rewrite S; discriminate.
  - destruct C as [_ S].
    eexists _, _. split; [reflexivity|]. intros _. simpl.
    apply K. destruct S as [S|S]; rewrite S; discriminate.
  - destruct C as [_ S].
    eexists _, _. split; [reflexivity|]. intros _. simpl.
    apply K. destruct S as [S|S]; rewrite S; discriminate.
  - assert (P : filePath v <> None).
    { apply K. destruct C as [S|S]; rewrite S; discriminate. }
    destruct (ascii v) eqn:EA.
    + destruct (filePath v) as [p|] eqn:EP; [|congruence]. simpl.
      eexists _, _. split; [reflexivity|]. intros _.
      unfold countLine.
      repeat match goal with
             | |- context [if ?b then _ else _] => destruct b
             end; simpl; congruence.
    + destruct (exec regexPatchHunkBinary line);
        eexists _, _; (split; [reflexivity|]); intros _; simpl; exact P.
  - destruct C as [S _].
    eexists _, _. split; [reflexivity|]. intros _. simpl.
    apply K. rewrite S. discriminate.
  - eexists _, _. split; [reflexivity | exact K].
Qed.

Lemma loopBody_ok {v} line :
  pathKnown v -> exists v', loopBody v line = Ok v' /\ pathKnown v'.
Proof.
  intros K. destruct (applyRule_ok line K) as (v1 & e & H & K1).
  unfold loopBody. rewrite H. simpl.
  destruct (dropsBlank v1 line); eexists; split; try reflexivity; exact K1.
Qed.

Lemma forLines_ok lines :
  forall v, pathKnown v -> exists v', forLines v lines = Ok v' /\ pathKnown v'.
Proof.
  induction lines as [|line rest IH]; intros v K; simpl.
  - eauto.
  - destruct (loopBody_ok line K) as (v1 & H & K1). rewrite H. simpl.
    apply IH. exact K1.
Qed.

Lemma pathKnown_initial : pathKnown initial.
Proof. intros H. exfalso. apply H. reflexivity. Qed.

Lemma forLines_app l1 l2 v :
  forLines v (l1 ++ l2) = (v1 <- forLines v l1 ;; forLines v1 l2).
Proof.
  revert v. induction l1 as [|a l1 IH]; intros v; simpl; [reflexivity|].
  destruct (loopBody v a); simpl; [apply IH | reflexivity].
Qed.

(** The locals met at each line are defined and know the path. *)
Lemma localsAt_ok lines n :
  exists v, localsAt lines n = Ok v /\ pathKnown v.
Proof. apply forLines_ok, pathKnown_initial. Qed.

(** The counters after a line of an ascii hunk, field by field. *)
Lemma countLine_addedLines line v :
  addedLines (countLine line v) =
  if counted line && (firstIs line 32%N || firstIs line 43%N)
  then dec (addedLines v) else addedLines v.
Proof.
  unfold countLine, counted.
  destruct (negb (str_eqb line noNewlineMarker) && negb (str_eqb line []));
    simpl; [|reflexivity].
  destruct (firstIs line 32%N || firstIs line 43%N),
           (firstIs line 32%N || firstIs line 45%N); reflexivity.
Qed.

Lemma countLine_deletedLines line v :
  deletedLines (countLine line v) =
  if counted line && (firstIs line 32%N || firstIs line 45%N)
  then dec (deletedLines v) else deletedLines v.
Proof.
  unfold countLine, counted.
  destruct (negb (str_eqb line noNewlineMarker) && negb (str_eqb line []));
    simpl; [|reflexivity].
  destruct (firstIs line 32%N || firstIs line 43%N),
           (firstIs line 32%N || firstIs line 45%N); reflexivity.
Qed.

Lemma countLine_others line v :
  patchBody (countLine line v) = patchBody v
  /\ ascii (countLine line v) = ascii v
  /\ patchState (countLine line v) = patchState v
  /\ success (countLine line v) = success v
  /\ filePath (countLine line v) = filePath v.
Proof.
  unfold countLine.
  destruct (negb (str_eqb line noNewlineMarker) && negb (str_eqb line []));
    simpl; [|auto].
  destruct (firstIs line 32%N || firstIs line 43%N),
           (firstIs line 32%N || firstIs line 45%N); simpl; auto.
Qed.

(** What one branch does to [success], to the output and to [unixEol]. *)
Lemma applyRule_success v line v1 e :
  applyRule v line (selectRule v line) = Ok (v1, e) ->
  success v1 = success v && negb (violation v line).
Proof.
  unfold violation, pathMismatch, modeConflict, counterNegative.
  destruct (selectRule v line) as [m|[m|]| | | |]; simpl; intros H.
  - unfold groupToString in H.
    destruct (capture m 1) as [m1|]; [|discriminate].
    destruct (capture m 2) as [m2|]; [|discriminate].
    simpl in H. injection H as <- <-. simpl.
    destruct (str_eqb m1 m2), (success v); reflexivity.
  - unfold groupToString in H.
    destruct (capture m 1) as [m1|]; [|discriminate].
    destruct (capture m 2) as [m2|]; [|discriminate].
    simpl in H. injection H as <- <-. simpl.
    destruct (success v); reflexivity.
  - injection H as <- <-. simpl. destruct (success v); reflexivity.
  - injection H as <- <-. simpl.
    destruct (ascii v), (success v); reflexivity.
  - destruct (ascii v) eqn:EA.
    + destruct (filePath v) as [p|]; [|discriminate]. simpl in H.
      injection H as <- <-.
      pose proof (countLine_addedLines line (setPatchState PatchStateHunk v))
        as Ea.
      pose proof (countLine_deletedLines line (setPatchState PatchStateHunk v))
        as Ed.
      pose proof (countLine_others line (setPatchState PatchStateHunk v))
        as (_ & _ & _ & Es & _).
      change (addedLines (setPatchState PatchStateHunk v))
        with (addedLines v) in Ea.
      change (deletedLines (setPatchState PatchStateHunk v))
        with (deletedLines v) in Ed.
      change (success (setPatchState PatchStateHunk v))
        with (success v) in Es.
      revert Ea Ed Es.
      generalize (countLine line (setPatchState PatchStateHunk v)) as w.
      intros w Ea Ed Es.
      rewrite countLine_addedLines, countLine_deletedLines.
      destruct (isZero (addedLines w) && isZero (deletedLines w));
        simpl; rewrite Ea, Ed, Es;
        destruct (success v),
          (geZero (if counted line && (firstIs line 32%N || firstIs line 43%N)
                   then dec (addedLines v) else addedLines v)),
          (geZero (if counted line && (firstIs line 32%N || firstIs line 45%N)
                   then dec (deletedLines v) else deletedLines v));
        reflexivity.
    + destruct (exec regexPatchHunkBinary line); injection H as <- <-; simpl;
        destruct (success v); reflexivity.
  - injection H as <- <-. simpl. destruct (success v); reflexivity.
  - injection H as <- <-. simpl. destruct (success v); reflexivity.
Qed.

Lemma applyRule_output v line v1 e :
  applyRule v line (selectRule v line) = Ok (v1, e) ->
  patchBody v1 = patchBody v
  /\ eol e = terminator v line.
Proof.
  unfold terminator, asciiHunkContent, shellScript.
  destruct (selectRule v line) as [m|[m|]| | | |]; simpl; intros H.
  - unfold groupToString in H.
    destruct (capture m 1) as [m1|]; [|discriminate].
    destruct (capture m 2) as [m2|]; [|discriminate].
    simpl in H. injection H as <- <-. simpl. auto.
  - unfold groupToString in H.
    destruct (capture m 1) as [m1|]; [|discriminate].
    destruct (capture m 2) as [m2|]; [|discriminate].
    simpl in H. injection H as <- <-. simpl. auto.
  - injection H as <- <-. simpl. auto.
  - injection H as <- <-. simpl. auto.
  - destruct (ascii v) eqn:EA.
    + destruct (filePath v) as [p|]; [|discriminate]. simpl in H.
      injection H as <- <-.
      pose proof (countLine_others line (setPatchState PatchStateHunk v))
        as (Eb & _).
      change (patchBody (setPatchState PatchStateHunk v))
        with (patchBody v) in Eb.
      revert Eb.
      generalize (countLine line (setPatchState PatchStateHunk v)) as w.
      intros w Eb.
      split.
      * destruct (isZero (addedLines w) && isZero (deletedLines w));
          simpl; exact Eb.
      * simpl. destruct (endsWith p _); reflexivity.
    + destruct (exec regexPatchHunkBinary line); injection H as <- <-; simpl;
        auto.
  - injection H as <- <-. simpl. auto.
  - injection H as <- <-. simpl. auto.
Qed.

Lemma loopBody_success v line v' :
  loopBody v line = Ok v' ->
  success v' = success v && negb (violation v line).
Proof.
  unfold loopBody.
  destruct (applyRule v line (selectRule v line)) as [[v1 e]|] eqn:E;
    simpl; [|discriminate].
  apply applyRule_success in E.
  destruct (dropsBlank v1 line); intros H; inversion H; subst; simpl; exact E.
Qed.

Lemma loopBody_output v line v' :
  loopBody v line = Ok v' ->
  patchBody v' =
  patchBody v
  ++ (if emitted v line then replaceNbsp line ++ terminator v line else []).
Proof.
  unfold loopBody, emitted.
  destruct (applyRule v line (selectRule v line)) as [[v1 e]|] eqn:E;
    simpl; [|discriminate].
  apply applyRule_output in E. destruct E as [Eb Ee].
  destruct (dropsBlank v1 line); intros H; inversion H; subst; simpl.
  - rewrite app_nil_r. exact Eb.
  - rewrite Eb, Ee. reflexivity.
Qed.

Lemma forLines_success lines :
  forall v v',
    forLines v lines = Ok v' ->
    success v' = success v && negb (violated v lines).
Proof.
  induction lines as [|line rest IH]; intros v v' H; simpl in H.
  - inversion H; subst. simpl. destruct (success v'); reflexivity.
  - simpl. destruct (loopBody v line) as [v1|] eqn:E; [|discriminate].
    simpl in H. apply IH in H. apply loopBody_success in E.
    rewrite H, E.
    destruct (success v), (violation v line), (violated v1 rest); reflexivity.
Qed.

Lemma forLines_output lines :
  forall v v',
    forLines v lines = Ok v' ->
    patchBody v' = patchBody v ++ textWith terminator v lines.
Proof.
  induction lines as [|line rest IH]; intros v v' H; simpl in H.
  - inversion H; subst. simpl. rewrite app_nil_r. reflexivity.
  - simpl. destruct (loopBody v line) as [v1|] eqn:E; [|discriminate].
    simpl in H. apply IH in H. apply loopBody_output in E.
    rewrite H, E, <- app_assoc. reflexivity.
Qed.

End PatchFacts.

(** ** The claims about the recognizer *)

Module ScanClaims.

Import RegexFacts PatchFacts.

Lemma firstn_snoc {X : Type} (l : list X) n x :
  nth_error l n = Some x -> firstn (S n) l = firstn n l ++ [x].
Proof.
  revert n. induction l as [|a l IH]; intros [|n] H; simpl in H;
    try discriminate.
  - injection H as ->. reflexivity.
  - simpl. f_equal. apply IH. exact H.
Qed.

(** From the locals met at a line to those met at the next. *)
Lemma localsAt_S lines n line :
  nth_error lines n = Some line ->
  localsAt lines (S n) = (v <- localsAt lines n ;; loopBody v line).
Proof.
  intros H. unfold localsAt. rewrite (firstn_snoc _ _ _ H), forLines_app.
  destruct (forLines initial (firstn n lines)) as [v|]; simpl; [|reflexivity].
  destruct (loopBody v line); reflexivity.
Qed.

Lemma localsAt_all lines n :
  length lines <= n -> localsAt lines n = forLines initial lines.
Proof. intros H. unfold localsAt. rewrite firstn_all2; auto. Qed.

(** The path is only ever set by the branch of the file header. *)
Lemma loopBody_filePath v line v' :
  loopBody v line = Ok v' ->
  filePath v' = filePath v
  \/ exists m, selectRule v line = RuleFileHeader m
               /\ filePath v' = capture m 1.
Proof.
  unfold loopBody.
  destruct (applyRule v line (selectRule v line)) as [[v1 e]|] eqn:E;
    simpl; [|discriminate].
  intros H.
  assert (P : filePath v' = filePath v1).
  { destruct (dropsBlank v1 line); injection H as <-; reflexivity. }
  rewrite P. clear H P.
  destruct (selectRule v line) as [m|[m|]| | | |]; simpl in E.
  - right. exists m. split; [reflexivity|].
    unfold groupToString in E.
    destruct (capture m 1) as [m1|]; [|discriminate].
    destruct (capture m 2) as [m2|]; [|discriminate].
    simpl in E. injection E as <- <-. reflexivity.
  - left. unfold groupToString in E.
    destruct (capture m 1) as [m1|]; [|discriminate].
    destruct (capture m 2) as [m2|]; [|discriminate].
    simpl in E. injection E as <- <-. reflexivity.
  - left. injection E as <- <-. reflexivity.
  - left. injection E as <- <-. reflexivity.
  - left. destruct (ascii v).
    + destruct (filePath v) as [p|] eqn:EP; [|discriminate]. simpl in E.
      injection E as <- <-.
      pose proof (countLine_others line (setPatchState PatchStateHunk v))
        as (_ & _ & _ & _ & Ef).
      destruct (isZero _ && isZero _); simpl; rewrite Ef; exact EP.
    + destruct (exec regexPatchHunkBinary line); injection E as <- <-;
        reflexivity.
  - left. injection E as <- <-. reflexivity.
  - left. injection E as <- <-. reflexivity.
Qed.

Lemma filePath_origin lines n :
  forall v p,
    localsAt lines n = Ok v ->
    filePath v = Some p ->
    exists j vj lj m,
      j < n /\ localsAt lines j = Ok vj /\ nth_error lines j = Some lj
      /\ selectRule vj lj = RuleFileHeader m /\ capture m 1 = Some p.
Proof.
  induction n as [|n IH]; intros v p H P.
  - unfold localsAt in H. simpl in H. injection H as <-. discriminate.
  - destruct (nth_error lines n) as [line|] eqn:EL.
    + rewrite (localsAt_S _ _ _ EL) in H.
      destruct (localsAt lines n) as [vn|] eqn:En; [|discriminate].
      simpl in H. destruct (loopBody_filePath _ _ _ H) as [Q|(m & Q1 & Q2)].
      * rewrite Q in P. destruct (IH vn p eq_refl P)
          as (j & vj & lj & m & Hj & G).
        exists j, vj, lj, m. split; [lia | exact G].
      * exists n, vn, line, m. repeat split; auto. congruence.
    + apply nth_error_None in EL.
      rewrite localsAt_all in H by lia.
      rewrite <- (localsAt_all lines n) in H by lia.
      destruct (IH v p H P) as (j & vj & lj & m & Hj & G).
      exists j, vj, lj, m. split; [lia | exact G].
Qed.

(** C6.  [convertToPatch] never throws: for every text it returns a pair
    of a verdict and a text, and so does the sibling copy.  Whenever a line
    is met as the content of an ascii hunk, where [filePath.endsWith] is
    called, the path is a string that the file header of an earlier line
    set; and whenever the first code unit of such a line is looked at, the
    line has one. *)
Theorem convertToPatch_total (bodyText : str) :
  (exists success patchText, convertToPatch bodyText = Ok (success, patchText))
  /\ (exists success patchText,
         convertToPatch_sibling bodyText = Ok (success, patchText))
  /\ (forall n v line,
         localsAt (splitLines bodyText) n = Ok v ->
         nth_error (splitLines bodyText) n = Some line ->
         asciiHunkContent v line = true ->
         (exists p j vj lj m,
             filePath v = Some p
             /\ j < n
             /\ localsAt (splitLines bodyText) j = Ok vj
             /\ nth_error (splitLines bodyText) j = Some lj
             /\ selectRule vj lj = RuleFileHeader m
             /\ capture m 1 = Some p)
         /\ (counted line = true -> exists c, nth_error line 0 = Some c)).
Proof.
  split; [|split].
  - unfold convertToPatch.
    destruct (forLines_ok (splitLines bodyText) initial pathKnown_initial)
      as (v & H & _).
    rewrite H. simpl. unfold finish. eauto.
  - unfold convertToPatch_sibling.
    destruct (forLines_ok (splitLines (replaceNbsp bodyText)) initial
                pathKnown_initial) as (v & H & _).
    rewrite H. simpl. unfold finish. eauto.
  - intros n v line Hv Hl Hc. split.
    + destruct (localsAt_ok (splitLines bodyText) n) as (v0 & H0 & K).
      rewrite Hv in H0. injection H0 as <-.
      unfold asciiHunkContent in Hc.
      pose proof (selectRule_cases v line) as C.
      destruct (selectRule v line); try discriminate.
      assert (P : filePath v <> None).
      { apply K. destruct C as [S|S]; rewrite S; discriminate. }
      destruct (filePath v) as [p|] eqn:EP; [|congruence].
      destruct (filePath_origin _ _ _ _ Hv EP) as (j & vj & lj & m & G).
      exists p, j, vj, lj, m. split; [reflexivity | exact G].
    + unfold counted. intros G. apply andb_true_iff in G. destruct G as [_ G].
      destruct line as [|c line]; [discriminate|].
      exists c. reflexivity.
Qed.

(** The state [End] is entered by the signature line only. *)
Lemma loopBody_End v line v' :
  loopBody v line = Ok v' ->
  patchState v' = PatchStateEnd ->
  patchState v = PatchStateEnd
  \/ (patchState v = PatchStateHunkEnd /\ line = js "-- ").
Proof.
  unfold loopBody.
  destruct (applyRule v line (selectRule v line)) as [[v1 e]|] eqn:E;
    simpl; [|discriminate].
  intros H.
  assert (P : patchState v' = patchState v1).
  { destruct (dropsBlank v1 line); injection H as <-; reflexivity. }
  rewrite P. clear H P.
  pose proof (selectRule_cases v line) as C.
  destruct (selectRule v line) as [m|[m|]| | | |]; simpl in E.
  - unfold groupToString in E.
    destruct (capture m 1) as [m1|]; [|discriminate].
    destruct (capture m 2) as [m2|]; [|discriminate].
    simpl in E. injection E as <- <-. discriminate.
  - unfold groupToString in E.
    destruct (capture m 1) as [m1|]; [|discriminate].
    destruct (capture m 2) as [m2|]; [|discriminate].
    simpl in E. injection E as <- <-. discriminate.
  - injection E as <- <-. discriminate.
  - injection E as <- <-. discriminate.
  - destruct (ascii v).
    + destruct (filePath v) as [p|] eqn:EP; [|discriminate]. simpl in E.
      injection E as <- <-.
      pose proof (countLine_others line (setPatchState PatchStateHunk v))
        as (_ & _ & Es & _).
      destruct (isZero _ && isZero _); simpl; [discriminate|].
      rewrite Es. discriminate.
    + destruct (exec regexPatchHunkBinary line); injection E as <- <-;
        discriminate.
  - injection E as <- <-. intros _. right. exact C.
  - injection E as <- <-. auto.
Qed.

Lemma End_origin lines n :
  forall v,
    localsAt lines n = Ok v ->
    patchState v = PatchStateEnd ->
    exists j vj,
      j < n /\ localsAt lines j = Ok vj
      /\ patchState vj = PatchStateHunkEnd
      /\ nth_error lines j = Some (js "-- ").
Proof.
  induction n as [|n IH]; intros v H P.
  - unfold localsAt in H. simpl in H. injection H as <-. discriminate.
  - destruct (nth_error lines n) as [line|] eqn:EL.
    + rewrite (localsAt_S _ _ _ EL) in H.
      destruct (localsAt lines n) as [vn|] eqn:En; [|discriminate].
      simpl in H. destruct (loopBody_End _ _ _ H P) as [Q|[Q1 Q2]].
      * destruct (IH vn eq_refl Q) as (j & vj & Hj & G).
        exists j, vj. split; [lia | exact G].
      * exists n, vn. subst line. repeat split; auto.
    + apply nth_error_None in EL.
      rewrite localsAt_all in H by lia.
      rewrite <- (localsAt_all lines n) in H by lia.
      destruct (IH v H P) as (j & vj & Hj & G).
      exists j, vj. split; [lia | exact G].
Qed.

(** C1.  [convertToPatch] returns [success = true] exactly when the scan
    ends in the state [End] and no line recorded a violation (a path
    mismatch, an ascii/binary conflict or a negative counter); a scan that
    ends in another state returns [false].  The state [End] is only reached
    by a line ["-- "] met in the state [HunkEnd]. *)
Theorem convertToPatch_success_iff (bodyText : str) :
  exists v success patchText,
    forLines initial (splitLines bodyText) = Ok v
    /\ convertToPatch bodyText = Ok (success, patchText)
    /\ (success = true <->
        patchState v = PatchStateEnd
        /\ violated initial (splitLines bodyText) = false)
    /\ (patchState v <> PatchStateEnd -> success = false)
    /\ (patchState v = PatchStateEnd ->
        exists j vj,
          localsAt (splitLines bodyText) j = Ok vj
          /\ patchState vj = PatchStateHunkEnd
          /\ nth_error (splitLines bodyText) j = Some (js "-- ")).
Proof.
  destruct (forLines_ok (splitLines bodyText) initial pathKnown_initial)
    as (v & H & _).
  exists v. unfold convertToPatch. rewrite H. simpl. unfold finish.
  eexists _, _. split; [reflexivity|]. split; [reflexivity|].
  pose proof (forLines_success _ _ _ H) as S. simpl in S.
  split; [|split].
  - rewrite S. destruct (patchState v); simpl;
      destruct (violated initial (splitLines bodyText)); simpl;
      split; try discriminate; try (intros [? ?]; discriminate); auto.
  - intros N. destruct (patchState v); try reflexivity. congruence.
  - intros E.
    rewrite <- (localsAt_all _ (length (splitLines bodyText)) (le_n _)) in H.
    destruct (End_origin _ _ _ H E) as (j & vj & _ & G).
    exists j, vj. exact G.
Qed.

Lemma replaceNbsp_clean s : ~ In NBSP (replaceNbsp s).
Proof.
  unfold replaceNbsp. intros H. apply in_map_iff in H.
  destruct H as (c & H & _).
  destruct (N.eqb c NBSP) eqn:E; [discriminate|].
  apply N.eqb_neq in E. congruence.
Qed.

Lemma textWith_terminator_clean lines :
  forall v, ~ In NBSP (textWith terminator v lines).
Proof.
  induction lines as [|line rest IH]; intros v H; simpl in H; [exact H|].
  apply in_app_or in H. destruct H as [H|H].
  - destruct (emitted v line); [|exact H].
    apply in_app_or in H. destruct H as [H|H].
    + exact (replaceNbsp_clean _ H).
    + unfold terminator in H.
      destruct (asciiHunkContent v line && negb (shellScript v));
        simpl in H; unfold NBSP, CR, LF in H;
        repeat (destruct H as [H|H]; [discriminate|]); exact H.
  - destruct (loopBody v line); [exact (IH _ H) | exact H].
Qed.

(** C5, as the code has it.  The text that [convertToPatch] returns is
    made of the lines that go to the output, in order, each with its
    non-breaking spaces replaced and each ended by a line feed, except the
    content lines of an ascii hunk whose file path does not end in [.sh],
    which are ended by a carriage return and a line feed. *)
Theorem convertToPatch_line_endings (bodyText : str) :
  exists success,
    convertToPatch bodyText
    = Ok (success, textWith terminator initial (splitLines bodyText)).
Proof.
  destruct (forLines_ok (splitLines bodyText) initial pathKnown_initial)
    as (v & H & _).
  unfold convertToPatch. rewrite H. simpl. unfold finish.
  eexists. rewrite (forLines_output _ _ _ H). reflexivity.
Qed.

(** C5, as stated, fails on a body of one line of prose: the line is the
    content of no hunk, and it is ended by a line feed alone. *)
Lemma convertToPatch_not_crlf_by_default :
  convertToPatch (js "hello") = Ok (false, js "hello" ++ [LF])
  /\ textWith terminatorCrlfByDefault initial (splitLines (js "hello"))
     = js "hello" ++ [CR; LF].
Proof. split; vm_compute; reflexivity. Qed.

End ScanClaims.

(** ** The file header *)

Module HeaderClaims.

Import RegexFacts PatchFacts ScanClaims ClassFacts.

Local Open Scope list_scope.

(** The pattern after the first group: white space, [b], then the second
    group to the end of the line. *)
Lemma fileHeaderTail_inv suf i c s' i' c' :
  Run fileHeaderTail suf i c s' i' c' ->
  exists w W Y,
    suf = w :: W ++ 98%N :: 47%N :: Y
    /\ isWhiteSpace w = true
    /\ Forall (fun a => isWhiteSpace a = true) W
    /\ dotText Y
    /\ s' = [] /\ c' = (2, 47%N :: Y) :: c.
Proof.
  unfold fileHeaderTail, Plus. cbn [seq lit js]. intros R.
  inversion R as [| |? ? ? ? ? s1 i1 c1 ? ? ? R1 R2| | | | | | |]; subst;
    clear R.
  inversion R1 as [| |? ? ? ? ? s2 i2 c2 ? ? ? R3 R4| | | | | | |]; subst;
    clear R1.
  inversion R3 as [|? w ? ? ? Hw| | | | | | | |]; subst; clear R3.
  apply Run_star_class_inv in R4. destruct R4 as (W & -> & FW & -> & ->).
  inversion R2 as [| |? ? ? ? ? s3 i3 c3 ? ? ? R5 R6| | | | | | |]; subst;
    clear R2.
  inversion R5 as [|? b ? ? ? Hb| | | | | | | |]; subst; clear R5.
  apply N.eqb_eq in Hb. subst b.
  inversion R6 as [| |? ? ? ? ? s4 i4 c4 ? ? ? R7 R8| | | | | | |]; subst;
    clear R6.
  inversion R8; subst; clear R8.
  inversion R7 as [| | | | | | |? ? ? ? ? ? ? ? R9| |]; subst; clear R7.
  inversion R9 as [| |? ? ? ? ? s5 i5 c5 ? ? ? R10 R11| | | | | | |]; subst;
    clear R9.
  inversion R10 as [|? sl ? ? ? Hs| | | | | | | |]; subst; clear R10.
  apply N.eqb_eq in Hs. subst sl.
  apply Run_star_class_inv in R11. destruct R11 as (Y & E & FY & -> & ->).
  rewrite app_nil_r in E. subst s5.
  exists w, W, Y. repeat split; auto.
  cbn [length]. rewrite Nat.sub_0_r.
  change (S (length Y)) with (length (47%N :: Y)). rewrite firstn_all.
  reflexivity.
Qed.

Lemma fileHeaderTail_intro w W Y i c :
  isWhiteSpace w = true ->
  Forall (fun a => isWhiteSpace a = true) W ->
  dotText Y ->
  exists i' c', Run fileHeaderTail (w :: W ++ 98%N :: 47%N :: Y) i c [] i' c'.
Proof.
  intros Hw FW FY. unfold fileHeaderTail, Plus. cbn [seq lit js].
  eexists _, _.
  eapply RunSeq.
  { eapply RunSeq; [constructor; exact Hw|].
    apply (Run_star_class true isWhiteSpace W). exact FW. }
  eapply RunSeq; [constructor; reflexivity|].
  eapply RunSeq; [|constructor].
  apply RunGroup. eapply RunSeq; [constructor; reflexivity|].
  pose proof (Run_star_class true (fun c => negb (isLineTerminator c)) Y []
                (S (S (S i + length W))) c FY) as R.
  rewrite app_nil_r in R. exact R.
Qed.

(** Up to the first group the pattern follows the literal text; what is
    left is the greedy [.*] of the first group and, after it, the tail. *)
Lemma fileHeader_matchAt T :
  matchAt regexPatchFileHeader (js "diff --git a/" ++ T) 0 =
  rmatch (Star true dot) T 13 []
    (fun s' i' c' =>
       rmatch fileHeaderTail s' i'
         ((1, firstn (length (47%N :: T) - length s') (47%N :: T)) :: c')
         (fun s'' _ c'' =>
            Some ((0, firstn (length (js "diff --git a/" ++ T) - length s'')
                        (js "diff --git a/" ++ T)) :: c''))).
Proof. reflexivity. Qed.

Lemma fileHeader_exec T :
  exec regexPatchFileHeader (js "diff --git a/" ++ T) =
  rmatch (Star true dot) T 13 []
    (fun s' i' c' =>
       rmatch fileHeaderTail s' i'
         ((1, firstn (length (47%N :: T) - length s') (47%N :: T)) :: c')
         (fun s'' _ c'' =>
            Some ((0, firstn (length (js "diff --git a/" ++ T) - length s'')
                        (js "diff --git a/" ++ T)) :: c''))).
Proof.
  rewrite <- fileHeader_matchAt.
  exact (exec_Bol _ (js "diff --git a/" ++ T)).
Qed.

Lemma prefix_split {X : Type} (l1 r1 l2 r2 : list X) :
  l1 ++ r1 = l2 ++ r2 -> length l1 <= length l2 ->
  exists d, l2 = l1 ++ d /\ r1 = d ++ r2.
Proof.
  revert l2. induction l1 as [|a l1 IH]; intros l2 E L.
  - exists l2. simpl in *. auto.
  - destruct l2 as [|b l2]; [simpl in L; lia|].
    simpl in E. injection E as <- E.
    destruct (IH l2 E) as (d & -> & ->); [simpl in L; lia|].
    exists d. auto.
Qed.

(** The tail of the pattern accepts what has its shape, whatever the
    captures so far. *)
Lemma fileHeaderTail_accepts w W Y i c (f : str -> caps -> caps) :
  isWhiteSpace w = true ->
  Forall (fun a => isWhiteSpace a = true) W ->
  dotText Y ->
  rmatch fileHeaderTail (w :: W ++ 98%N :: 47%N :: Y) i c
    (fun s' _ c' => Some (f s' c')) <> None.
Proof.
  intros Hw FW FY.
  destruct (fileHeaderTail_intro w W Y i c Hw FW FY) as (i' & c' & R).
  destruct (rmatch_complete caps (fun s' _ c' => Some (f s' c')) R eq_refl)
    as [m Hm].
  congruence.
Qed.

(** A header line ["diff --git a/x b/y"] whose two paths hold no line
    terminator matches the pattern; the first group ends at the last place
    from which the tail matches, and the two groups differ when [x] and
    [y] do. *)
Lemma fileHeader_literal x y :
  dotText x -> dotText y ->
  exists m pre Y,
    exec regexPatchFileHeader (js "diff --git a/" ++ x ++ js " b/" ++ y)
    = Some m
    /\ capture m 1 = Some (47%N :: pre)
    /\ capture m 2 = Some (47%N :: Y)
    /\ (x <> y -> pre <> Y).
Proof.
  intros Dx Dy. rewrite fileHeader_exec.
  change (js " b/") with [32%N; 98%N; 47%N].
  match goal with
  | |- context [rmatch (Star true dot) ?t 13 [] _] => set (T := t)
  end.
  assert (DT : dotText T).
  { unfold T, dotText. apply Forall_app. split; [exact Dx|].
    apply Forall_app. split; [|exact Dy]. repeat constructor. }
  match goal with
  | |- context [rmatch (Star true dot) T 13 [] ?k] => set (K := k)
  end.
  assert (V : forall pre' w' W' Y' i,
             T = pre' ++ w' :: W' ++ 98%N :: 47%N :: Y' ->
             isWhiteSpace w' = true ->
             Forall (fun a => isWhiteSpace a = true) W' ->
             K (w' :: W' ++ 98%N :: 47%N :: Y') i [] <> None).
  { intros pre' w' W' Y' i E Hw FW. unfold K.
    apply (fileHeaderTail_accepts w' W' Y' i _
             (fun s'' c'' =>
                (0, firstn (length (js "diff --git a/" ++ T) - length s'')
                      (js "diff --git a/" ++ T)) :: c'')); auto.
    unfold dotText in *. rewrite E in DT.
    apply Forall_app in DT. destruct DT as [_ DT].
    inversion DT as [|? ? _ DT1]; subst.
    apply Forall_app in DT1. destruct DT1 as [_ DT1].
    inversion DT1 as [|? ? _ DT2]; subst.
    inversion DT2 as [|? ? _ DT3]; subst. exact DT3. }
  destruct (rmatch (Star true dot) T 13 [] K) as [m|] eqn:E.
  2:{ exfalso.
      apply (V x 32%N [] y (13 + length x) eq_refl eq_refl (Forall_nil _)).
      exact (star_class_none caps true _ T 13 [] K E x
               ([32%N; 98%N; 47%N] ++ y) eq_refl Dx). }
  unfold dot in E. apply star_class_greedy in E.
  destruct E as (pre & suf & ET & Fpre & HK & Max).
  assert (HK' := HK). unfold K in HK'. apply rmatch_sound in HK'.
  destruct HK' as (s' & i' & c' & R & Hm).
  apply fileHeaderTail_inv in R.
  destruct R as (w & W & Y & -> & Hw & FW & FY & -> & ->).
  injection Hm as <-.
  eexists. exists pre, Y. split; [reflexivity|].
  split.
  { cbn [capture Nat.eqb]. f_equal. rewrite ET.
    cbn [length]. rewrite !length_app. cbn [length]. rewrite !length_app.
    cbn [length].
    match goal with
    | |- firstn ?n _ = _ => replace n with (S (length pre)) by lia
    end.
    cbn [firstn]. f_equal.
    rewrite firstn_app, firstn_all, Nat.sub_diag. simpl. apply app_nil_r. }
  split; [reflexivity|].
  intros N EG. subst Y.
  assert (Max' : forall pre' w' W' Y',
             T = pre' ++ w' :: W' ++ 98%N :: 47%N :: Y' ->
             isWhiteSpace w' = true ->
             Forall (fun a => isWhiteSpace a = true) W' ->
             length pre' <= length pre).
  { intros pre' w' W' Y' E' Hw' FW'.
    destruct (Nat.le_gt_cases (length pre') (length pre)) as [L|L];
      [exact L|].
    exfalso.
    apply (V pre' w' W' Y' (13 + length pre') E' Hw' FW').
    apply Max; [exact E' | | exact L].
    unfold dotText in DT. rewrite E' in DT. apply Forall_app in DT. apply DT. }
  assert (Lx : length x <= length pre)
    by exact (Max' x 32%N [] y eq_refl eq_refl (Forall_nil _)).
  unfold T in ET.
  destruct (prefix_split _ _ _ _ ET Lx) as (d & Ed & Er).
  destruct d as [|d1 d].
  { (* the first group is [x] *)
    rewrite app_nil_r in Ed. subst pre. simpl in Er.
    injection Er as <- Er.
    destruct W as [|w2 W]; simpl in Er.
    - injection Er as Er. congruence.
    - injection Er as <- _. inversion FW; subst. discriminate. }
  simpl in Er. injection Er as <- Er.
  destruct d as [|d2 d]; simpl in Er.
  { injection Er as <- _. discriminate. }
  injection Er as <- Er.
  destruct d as [|d3 d]; simpl in Er.
  { injection Er as <- _. discriminate. }
  injection Er as <- Er.
  (* the first group reaches into [y]: its second copy holds a later
     place from which the tail matches *)
  assert (L : length (pre ++ w :: W ++ 98%N :: 47%N :: x) <= length pre).
  { apply (Max' _ 32%N [] d); [|reflexivity | constructor].
    unfold T. rewrite ET.
    rewrite <- app_assoc. f_equal. simpl. f_equal.
    rewrite <- app_assoc. f_equal. simpl. do 2 f_equal. exact Ed. }
  rewrite length_app in L. simpl in L. lia.
Qed.

(** A violation at some line is a violation of the scan. *)
Lemma violated_from lines1 :
  forall v0 v line rest,
    forLines v0 lines1 = Ok v ->
    violation v line = true ->
    violated v0 (lines1 ++ line :: rest) = true.
Proof.
  induction lines1 as [|l lines1 IH]; intros v0 v line rest H X.
  - simpl in H. injection H as ->. simpl. rewrite X. reflexivity.
  - simpl in H. simpl.
    destruct (loopBody v0 l) as [v1|] eqn:E; [|discriminate].
    simpl in H. rewrite (IH _ _ _ _ H X). apply orb_true_r.
Qed.

Lemma violated_at lines n v line :
  localsAt lines n = Ok v ->
  nth_error lines n = Some line ->
  violation v line = true ->
  violated initial lines = true.
Proof.
  intros H L X.
  destruct (nth_error_split _ _ L) as (l1 & l2 & E & Ln).
  unfold localsAt in H. rewrite E in H |- *.
  rewrite firstn_app, <- Ln, firstn_all, Nat.sub_diag in H.
  simpl in H. rewrite app_nil_r in H.
  exact (violated_from l1 initial v line l2 H X).
Qed.

(** C2, as the code has it.  A line ["diff --git a/x b/y"] with [x]
    different from [y] (two paths without line terminator), met while the
    state is [Start] or [HunkEnd], makes [convertToPatch] return
    [success = false], whatever the rest of the body. *)
Theorem mismatched_header_fails (bodyText : str) (n : nat) (v : Locals)
        (x y : str) :
  localsAt (splitLines bodyText) n = Ok v ->
  nth_error (splitLines bodyText) n
  = Some (js "diff --git a/" ++ x ++ js " b/" ++ y) ->
  patchState v = PatchStateStart \/ patchState v = PatchStateHunkEnd ->
  dotText x -> dotText y -> x <> y ->
  exists patchText, convertToPatch bodyText = Ok (false, patchText).
Proof.
  intros Hv Hl HS Dx Dy N.
  destruct (fileHeader_literal x y Dx Dy) as (m & pre & Y & Hm & H1 & H2 & D).
  specialize (D N).
  assert (R : selectRule v (js "diff --git a/" ++ x ++ js " b/" ++ y)
              = RuleFileHeader m).
  { unfold selectRule, condFileHeader. rewrite Hm.
    destruct HS as [-> | ->]; reflexivity. }
  assert (X : violation v (js "diff --git a/" ++ x ++ js " b/" ++ y) = true).
  { unfold violation, pathMismatch. rewrite R, H1, H2.
    assert (E : str_eqb (47%N :: pre) (47%N :: Y) = false).
    { apply str_eqb_neq. intros E. injection E as E. exact (D E). }
    rewrite E. reflexivity. }
  pose proof (violated_at _ _ _ _ Hv Hl X) as VV.
  destruct (forLines_ok (splitLines bodyText) initial pathKnown_initial)
    as (v' & H & _).
  unfold convertToPatch. rewrite H. simpl. unfold finish.
  rewrite (forLines_success _ _ _ H), VV. simpl.
  destruct (negb (PatchState_eqb (patchState v') PatchStateEnd)); eauto.
Qed.

(** The theorem at a patch whose only flaw is its file header. *)
Lemma mismatched_header_fails_witness :
  let bodyText :=
    joinLines [js "diff --git a/" ++ js "x" ++ js " b/" ++ js "y";
               js "@@ -1 +1 @@"; js "-a"; js "+b"; js "-- "] in
  localsAt (splitLines bodyText) 0 = Ok initial
  /\ nth_error (splitLines bodyText) 0
     = Some (js "diff --git a/" ++ js "x" ++ js " b/" ++ js "y")
  /\ patchState initial = PatchStateStart
  /\ js "x" <> js "y"
  /\ exists patchText, convertToPatch bodyText = Ok (false, patchText).
Proof.
  intros bodyText.
  split; [reflexivity|]. split; [reflexivity|]. split; [reflexivity|].
  split; [discriminate|].
  apply (mismatched_header_fails bodyText 0 initial (js "x") (js "y"));
    try reflexivity; try discriminate; try (left; reflexivity);
    repeat constructor.
Defined.

(** C2, as stated, fails when the line is met in another state: after a
    first file header the state is [FileHeader], the second header line is
    passed over although its paths differ, and the patch is accepted. *)
Lemma mismatched_header_passed_over :
  let line := js "diff --git a/" ++ js "x" ++ js " b/" ++ js "y" in
  let bodyText :=
    joinLines [js "diff --git a/f b/f"; line; js "@@ -1 +1 @@"; js "-a";
               js "+b"; js "-- "] in
  nth_error (splitLines bodyText) 1 = Some line
  /\ js "x" <> js "y"
  /\ (exists v,
         localsAt (splitLines bodyText) 1 = Ok v
         /\ patchState v = PatchStateFileHeader)
  /\ exists patchText, convertToPatch bodyText = Ok (true, patchText).
Proof.
  intros line bodyText.
  split; [reflexivity|]. split; [discriminate|]. split.
  - eexists. split; [vm_compute; reflexivity | reflexivity].
  - eexists. vm_compute. reflexivity.
Qed.

(** A carriage return inside [x] hides the mismatch even in the state
    [Start]: [.] passes over no line terminator, so the first group stops
    before it and the two groups are equal. *)
Lemma mismatched_header_with_carriage_return :
  let x := js "y" ++ [CR] in
  let bodyText :=
    joinLines [js "diff --git a/" ++ x ++ js " b/" ++ js "y";
               js "@@ -1 +1 @@"; js "-a"; js "+b"; js "-- "] in
  x <> js "y"
  /\ exists patchText, convertToPatch bodyText = Ok (true, patchText).
Proof.
  intros x bodyText. split; [discriminate|].
  eexists. vm_compute. reflexivity.
Qed.

End HeaderClaims.

(** ** The counters of an ascii hunk *)

Module HunkClaims.

Import RegexFacts PatchFacts ScanClaims.

Local Open Scope Z_scope.

Lemma roundDouble_exact z : Z.abs z <= 2 ^ 53 -> roundDouble z = Fin z.
Proof.
  intros H. unfold roundDouble.
  destruct (Z.leb_spec (Z.abs z) (2 ^ 53)); [reflexivity | lia].
Qed.

Lemma dec_exact z : 0 <= z <= 2 ^ 53 -> dec (Fin z) = Fin (z - 1).
Proof.
  intros H. simpl. apply roundDouble_exact.
  change (2 ^ 53) with 9007199254740992 in *. lia.
Qed.

(** A content line opens with a space, [+] or [-]. *)
Lemma contentLine_inv l :
  contentLine l = true ->
  exists c t, l = c :: t /\ (c = 32 \/ c = 43 \/ c = 45)%N.
Proof.
  unfold contentLine, deleteLine, addLine, firstIs.
  destruct l as [|c t]; simpl; [discriminate|].
  intros H. exists c, t. split; [reflexivity|].
  destruct (N.eqb_spec c 32); [auto|].
  destruct (N.eqb_spec c 43); [auto|].
  destruct (N.eqb_spec c 45); [auto|].
  discriminate.
Qed.

Lemma contentLine_counted l : contentLine l = true -> counted l = true.
Proof.
  intros H. destruct (contentLine_inv _ H) as (c & t & -> & [->|[->| ->]]);
    reflexivity.
Qed.

(** A content line is no sub-header of a binary hunk: that pattern wants
    [d] or [l] first. *)
Lemma contentLine_no_subHeader l :
  contentLine l = true -> exec regexPatchHunkBinarySubHeader l = None.
Proof.
  intros H. destruct (contentLine_inv _ H) as (c & t & -> & E).
  unfold regexPatchHunkBinarySubHeader. cbn [seq]. rewrite exec_Bol.
  destruct E as [->|[->| ->]]; reflexivity.
Qed.

Lemma contentLine_rule v l :
  condHunkLine v = true -> contentLine l = true ->
  selectRule v l = RuleHunkLine.
Proof.
  intros S C. unfold selectRule, condFileHeader, condHunkHeader,
    condBinarySubHeader. rewrite S.
  rewrite (contentLine_no_subHeader _ C).
  unfold condHunkLine in S.
  destruct (patchState v); simpl in S; try discriminate; reflexivity.
Qed.

Lemma deleteCount_cons l ls :
  deleteCount (l :: ls) = used (deleteLine l) + deleteCount ls.
Proof.
  unfold deleteCount, used. simpl. destruct (deleteLine l); simpl length; lia.
Qed.

Lemma addCount_cons l ls :
  addCount (l :: ls) = used (addLine l) + addCount ls.
Proof.
  unfold addCount, used. simpl. destruct (addLine l); simpl length; lia.
Qed.

Lemma deleteCount_nonneg ls : 0 <= deleteCount ls.
Proof. unfold deleteCount. lia. Qed.

Lemma addCount_nonneg ls : 0 <= addCount ls.
Proof. unfold addCount. lia. Qed.

(** One content line, fed to an open ascii hunk whose counters are exact. *)
Lemma content_step v p D A l :
  condHunkLine v = true -> ascii v = true -> filePath v = Some p ->
  deletedLines v = Fin D -> addedLines v = Fin A ->
  0 <= D <= 2 ^ 53 -> 0 <= A <= 2 ^ 53 ->
  contentLine l = true ->
  exists v',
    loopBody v l = Ok v'
    /\ deletedLines v' = Fin (D - used (deleteLine l))
    /\ addedLines v' = Fin (A - used (addLine l))
    /\ ascii v' = true
    /\ filePath v' = Some p
    /\ patchState v' =
       (if (A - used (addLine l) =? 0) && (D - used (deleteLine l) =? 0)
        then PatchStateHunkEnd else PatchStateHunk)
    /\ success v' =
       success v && (0 <=? A - used (addLine l))
       && (0 <=? D - used (deleteLine l)).
Proof.
  intros S EA EP ED EAd HD HA C.
  assert (Ed : deletedLines (countLine l (setPatchState PatchStateHunk v))
               = Fin (D - used (deleteLine l))).
  { rewrite countLine_deletedLines, (contentLine_counted _ C). simpl.
    fold (deleteLine l). unfold used. rewrite ED.
    destruct (deleteLine l); [apply dec_exact; exact HD | f_equal; lia]. }
  assert (Ea : addedLines (countLine l (setPatchState PatchStateHunk v))
               = Fin (A - used (addLine l))).
  { rewrite countLine_addedLines, (contentLine_counted _ C). simpl.
    fold (addLine l). unfold used. rewrite EAd.
    destruct (addLine l); [apply dec_exact; exact HA | f_equal; lia]. }
  pose proof (countLine_others l (setPatchState PatchStateHunk v))
    as (Eb & Eas & Est & Esu & Efp).
  unfold loopBody. rewrite (contentLine_rule _ _ S C).
  cbn [applyRule]. cbv zeta.
  change (ascii (setPatchState PatchStateHunk v)) with (ascii v).
  change (filePath (setPatchState PatchStateHunk v)) with (filePath v).
  rewrite EA, EP. cbn [pathEndsWith bind].
  revert Ed Ea Eb Eas Est Esu Efp.
  generalize (countLine l (setPatchState PatchStateHunk v)) as w.
  intros w Ed Ea Eb Eas Est Esu Efp.
  rewrite Ed, Ea. cbn [isZero].
  assert (NB : forall u, dropsBlank u l = false).
  { intros u. unfold dropsBlank.
    destruct (contentLine_inv _ C) as (c & t & -> & _).
    simpl. apply andb_false_r. }
  destruct ((A - used (addLine l) =? 0) && (D - used (deleteLine l) =? 0));
    cbv iota.
  - rewrite NB.
    eexists. split; [reflexivity|]. simpl in *.
    rewrite Ed, Ea, Eas, Efp, Esu, EA, EP. cbn [geZero]. auto 10.
  - rewrite NB.
    eexists. split; [reflexivity|]. simpl in *.
    rewrite Ed, Ea, Eas, Efp, Esu, EA, EP. cbn [geZero]. auto 10.
Qed.

Lemma forLines_total v lines p :
  filePath v = Some p -> exists v', forLines v lines = Ok v'.
Proof.
  intros EP.
  destruct (forLines_ok lines v) as (v' & H & _); [|eauto].
  intros _. rewrite EP. discriminate.
Qed.

(** Content lines, fed to an open ascii hunk whose counters are exact, as
    long as the hunk stays open. *)
Lemma hunk_feed p lines :
  forall v D A,
    condHunkLine v = true -> ascii v = true -> filePath v = Some p ->
    deletedLines v = Fin D -> addedLines v = Fin A ->
    0 <= D <= 2 ^ 53 -> 0 <= A <= 2 ^ 53 ->
    Forall (fun l => contentLine l = true) lines ->
    stillOpen D A lines ->
    exists v',
      forLines v lines = Ok v'
      /\ success v' =
         success v && (deleteCount lines <=? D) && (addCount lines <=? A)
      /\ (lines <> [] -> deleteCount lines = D -> addCount lines = A ->
          patchState v' = PatchStateHunkEnd).
Proof.
  induction lines as [|l rest IH];
    intros v D A HS EA EP ED EAd HD HA C O.
  - exists v. split; [reflexivity|]. split; [|congruence].
    change (deleteCount []) with 0. change (addCount []) with 0.
    destruct (Z.leb_spec 0 D); [|lia]. destruct (Z.leb_spec 0 A); [|lia].
    destruct (success v); reflexivity.
  - inversion C as [|? ? Cl Cr]; subst.
    destruct (content_step v p D A l HS EA EP ED EAd HD HA Cl)
      as (v1 & H1 & ED1 & EA1 & EAs1 & EP1 & ES1 & ESu1).
    rewrite deleteCount_cons, addCount_cons. simpl forLines. rewrite H1.
    cbn [bind].
    pose proof (deleteCount_nonneg rest) as Nd.
    pose proof (addCount_nonneg rest) as Na.
    assert (Ud : 0 <= used (deleteLine l) <= 1)
      by (unfold used; destruct (deleteLine l); lia).
    assert (Ua : 0 <= used (addLine l) <= 1)
      by (unfold used; destruct (addLine l); lia).
    destruct (Z.leb_spec 0 (A - used (addLine l))) as [GA|GA];
      [destruct (Z.leb_spec 0 (D - used (deleteLine l))) as [GD|GD]|].
    + (* both counters are still non negative *)
      rewrite !andb_true_r in ESu1.
      destruct rest as [|l2 rest2].
      * exists v1. split; [reflexivity|].
        change (deleteCount []) with 0. change (addCount []) with 0.
        rewrite !Z.add_0_r. split.
        -- rewrite ESu1.
           destruct (Z.leb_spec (used (deleteLine l)) D); [|lia].
           destruct (Z.leb_spec (used (addLine l)) A); [|lia].
           destruct (success v); reflexivity.
        -- intros _ E1 E2. rewrite ES1.
           replace (A - used (addLine l)) with 0 by lia.
           replace (D - used (deleteLine l)) with 0 by lia. reflexivity.
      * assert (N : ~ (used (deleteLine l) = D /\ used (addLine l) = A)).
        { intros [E1 E2]. apply (O 1%nat); [simpl; lia|].
          simpl firstn. rewrite deleteCount_cons, addCount_cons.
          change (deleteCount []) with 0. change (addCount []) with 0.
          lia. }
        assert (S1 : condHunkLine v1 = true).
        { unfold condHunkLine. rewrite ES1.
          destruct (Z.eqb_spec (A - used (addLine l)) 0);
            destruct (Z.eqb_spec (D - used (deleteLine l)) 0);
            try reflexivity.
          exfalso. apply N. lia. }
        assert (O1 : stillOpen (D - used (deleteLine l))
                       (A - used (addLine l)) (l2 :: rest2)).
        { intros k Hk [E1 E2]. apply (O (S k)); [simpl in *; lia|].
          change (firstn (S k) (l :: l2 :: rest2))
            with (l :: firstn k (l2 :: rest2)).
          rewrite deleteCount_cons, addCount_cons. lia. }
        destruct (IH v1 _ _ S1 EAs1 EP1 ED1 EA1 ltac:(lia) ltac:(lia) Cr O1)
          as (v' & H & ESu & ESt).
        exists v'. split; [exact H|]. split.
        -- rewrite ESu, ESu1.
           destruct (Z.leb_spec (deleteCount (l2 :: rest2))
                       (D - used (deleteLine l)));
             destruct (Z.leb_spec
                         (used (deleteLine l) + deleteCount (l2 :: rest2)) D);
             try lia;
             destruct (Z.leb_spec (addCount (l2 :: rest2))
                         (A - used (addLine l)));
             destruct (Z.leb_spec
                         (used (addLine l) + addCount (l2 :: rest2)) A);
             try lia; reflexivity.
        -- intros _ E1 E2. apply ESt; [discriminate | lia | lia].
    + (* the counter of deleted lines went below zero *)
      assert (F : success v1 = false).
      { rewrite ESu1. destruct (success v); reflexivity. }
      destruct (forLines_total v1 rest p EP1) as (v' & H).
      exists v'. split; [exact H|]. split.
      * rewrite (forLines_success _ _ _ H), F.
        destruct (Z.leb_spec (used (deleteLine l) + deleteCount rest) D);
          [lia|].
        rewrite andb_false_r. reflexivity.
      * intros _ E1 _. lia.
    + (* the counter of added lines went below zero *)
      assert (F : success v1 = false).
      { rewrite ESu1. destruct (success v); reflexivity. }
      destruct (forLines_total v1 rest p EP1) as (v' & H).
      exists v'. split; [exact H|]. split.
      * rewrite (forLines_success _ _ _ H), F.
        destruct (Z.leb_spec (used (addLine l) + addCount rest) A); [lia|].
        rewrite andb_false_r. reflexivity.
      * intros _ _ E2. lia.
Qed.

Lemma deleteCount_app l1 l2 :
  deleteCount (l1 ++ l2) = deleteCount l1 + deleteCount l2.
Proof.
  unfold deleteCount. rewrite filter_app, length_app. lia.
Qed.

Lemma addCount_app l1 l2 :
  addCount (l1 ++ l2) = addCount l1 + addCount l2.
Proof.
  unfold addCount. rewrite filter_app, length_app. lia.
Qed.

(** Lines that use up the counts exactly leave the hunk open up to the
    last of them: each content line uses up something. *)
Lemma exact_stillOpen lines :
  Forall (fun l => contentLine l = true) lines ->
  stillOpen (deleteCount lines) (addCount lines) lines.
Proof.
  intros C k Hk [E1 E2].
  rewrite <- (firstn_skipn k lines) in E1 at 2.
  rewrite <- (firstn_skipn k lines) in E2 at 2.
  rewrite deleteCount_app in E1. rewrite addCount_app in E2.
  assert (L : (length (skipn k lines) > 0)%nat)
    by (rewrite length_skipn; lia).
  assert (Cs : Forall (fun l => contentLine l = true) (skipn k lines)).
  { rewrite <- (firstn_skipn k lines) in C.
    apply Forall_app in C. apply C. }
  destruct (skipn k lines) as [|l rest]; [simpl in L; lia|].
  inversion Cs as [|? ? Cl _]; subst.
  rewrite deleteCount_cons in E1. rewrite addCount_cons in E2.
  pose proof (deleteCount_nonneg rest). pose proof (addCount_nonneg rest).
  unfold contentLine in Cl. unfold used in *.
  destruct (deleteLine l), (addLine l); try discriminate; lia.
Qed.

(** C3, as the code has it.  Take an ascii hunk just opened with the
    counts [(D, A)], each exact as a binary64, and feed it content lines
    (lines that begin with a space, [+] or [-]).  If the lines use up
    exactly [D] and [A] and the counts are not both zero, the state moves
    to [HunkEnd] and [success] is what it was.  If they use up more than
    [D] or more than [A] while the hunk is still open when the last of them
    is fed, [success] is false. *)
Theorem ascii_hunk_counts (v : Locals) (D A : Z) (lines : list str) :
  patchState v = PatchStateHunkHeader -> ascii v = true ->
  filePath v <> None ->
  deletedLines v = Fin D -> addedLines v = Fin A ->
  0 <= D <= 2 ^ 53 -> 0 <= A <= 2 ^ 53 ->
  Forall (fun l => contentLine l = true) lines ->
  (deleteCount lines = D -> addCount lines = A -> (D, A) <> (0, 0) ->
   exists v',
     forLines v lines = Ok v'
     /\ patchState v' = PatchStateHunkEnd
     /\ success v' = success v)
  /\ (stillOpen D A lines ->
      D < deleteCount lines \/ A < addCount lines ->
      exists v', forLines v lines = Ok v' /\ success v' = false).
Proof.
  intros ES EA EP ED EAd HD HA C.
  destruct (filePath v) as [p|] eqn:EPp; [clear EP | congruence].
  assert (HS : condHunkLine v = true)
    by (unfold condHunkLine; rewrite ES; reflexivity).
  split.
  - intros E1 E2 N.
    assert (O : stillOpen D A lines)
      by (rewrite <- E1, <- E2; apply exact_stillOpen; exact C).
    destruct (hunk_feed p lines v D A HS EA EPp ED EAd HD HA C O)
      as (v' & H & ESu & ESt).
    exists v'. split; [exact H|]. split.
    + apply ESt; [|exact E1 | exact E2].
      intros ->. apply N. rewrite <- E1, <- E2. reflexivity.
    + rewrite ESu, E1, E2, !Z.leb_refl, !andb_true_r. reflexivity.
  - intros O X.
    destruct (hunk_feed p lines v D A HS EA EPp ED EAd HD HA C O)
      as (v' & H & ESu & _).
    exists v'. split; [exact H|]. rewrite ESu.
    destruct X as [X|X].
    + destruct (Z.leb_spec (deleteCount lines) D); [lia|].
      rewrite andb_false_r. reflexivity.
    + destruct (Z.leb_spec (addCount lines) A); [lia|].
      rewrite andb_false_r. reflexivity.
Qed.

(** The theorem at a hunk opened with the counts [(1, 2)]: fed one
    deleted and two added lines, and fed two deleted lines. *)
Lemma ascii_hunk_counts_witness :
  exists v,
    forLines initial [js "diff --git a/f b/f"; js "@@ -1 +1,2 @@"] = Ok v
    /\ (exists v',
           forLines v [js "-a"; js "+b"; js "+c"] = Ok v'
           /\ patchState v' = PatchStateHunkEnd
           /\ success v' = success v)
    /\ (exists v', forLines v [js "-a"; js "-b"] = Ok v' /\ success v' = false).
Proof.
  eexists. split; [vm_compute; reflexivity|]. split.
  - apply (ascii_hunk_counts _ 1 2 [js "-a"; js "+b"; js "+c"]);
      try reflexivity; try discriminate;
      try (split; [lia | vm_compute; discriminate]);
      repeat constructor.
  - apply (ascii_hunk_counts _ 1 2 [js "-a"; js "-b"]);
      try reflexivity; try discriminate;
      try (split; [lia | vm_compute; discriminate]);
      try (repeat constructor; fail).
    intros k Hk [_ E]. simpl in Hk.
    assert (k = 1%nat) by lia. subst k. vm_compute in E. discriminate.
Defined.

(** C3, as stated, fails at the counts [(0, 0)]: a hunk opened by
    ["@@ -0,0 +0,0 @@"] has been fed exactly zero lines of each kind, and
    the state is [HunkHeader], not [HunkEnd]. *)
Lemma empty_hunk_not_closed :
  exists v,
    forLines initial [js "diff --git a/f b/f"; js "@@ -0,0 +0,0 @@"] = Ok v
    /\ ascii v = true
    /\ deletedLines v = Fin (deleteCount [])
    /\ addedLines v = Fin (addCount [])
    /\ forLines v [] = Ok v
    /\ patchState v = PatchStateHunkHeader
    /\ patchState v <> PatchStateHunkEnd.
Proof.
  eexists. split; [vm_compute; reflexivity|].
  repeat split; discriminate.
Qed.

End HunkClaims.

(** ** The hunk header *)

Module HunkHeaderFacts.

Import RegexFacts PatchFacts ScanClaims ClassFacts.

Local Open Scope list_scope.

(** Where a run of a class ends is settled by the first code unit outside
    the class. *)
Lemma class_span_unique (p : char -> bool) u u' x x' r r' :
  Forall (fun a => p a = true) u -> Forall (fun a => p a = true) u' ->
  u ++ x :: r = u' ++ x' :: r' ->
  p x = false -> p x' = false ->
  u = u' /\ x = x' /\ r = r'.
Proof.
  revert u'. induction u as [|a u IH]; intros u' F F' E Hx Hx'.
  - destruct u' as [|a' u']; simpl in E.
    + injection E as -> ->. auto.
    + injection E as -> _. inversion F'; subst. congruence.
  - destruct u' as [|a' u']; simpl in E.
    + injection E as -> _. inversion F; subst. congruence.
    + injection E as -> E. inversion F; subst. inversion F'; subst.
      destruct (IH u' H2 H4 E Hx Hx') as (-> & -> & ->). auto.
Qed.

Lemma Run_plus_class_inv p s i c s' i' c' :
  Run (Plus (Chr p)) s i c s' i' c' ->
  exists a pre,
    s = a :: pre ++ s' /\ Forall (fun b => p b = true) (a :: pre) /\ c' = c.
Proof.
  unfold Plus. intros R.
  inversion R as [| |? ? ? ? ? s1 i1 c1 ? ? ? R1 R2| | | | | | |]; subst.
  inversion R1 as [|? a ? ? ? Ha| | | | | | | |]; subst.
  apply Run_star_class_inv in R2. destruct R2 as (pre & -> & F & _ & ->).
  exists a, pre. repeat split; auto.
Qed.

Lemma Run_plus_class p u s i c :
  u <> [] -> Forall (fun b => p b = true) u ->
  Run (Plus (Chr p)) (u ++ s) i c s (i + length u) c.
Proof.
  intros N F. destruct u as [|a u]; [congruence|].
  inversion F as [|? ? Ha Fu]; subst.
  unfold Plus. simpl. eapply RunSeq; [constructor; exact Ha|].
  replace (i + S (length u)) with (S i + length u) by lia.
  apply Run_star_class. exact Fu.
Qed.

Lemma Run_lit w s i c : Run (lit w) (w ++ s) i c s (i + length w) c.
Proof.
  revert i. induction w as [|a w IH]; intros i.
  - simpl. rewrite Nat.add_0_r. constructor.
  - destruct w as [|b w].
    + simpl. replace (i + 1) with (S i) by lia. constructor.
      apply N.eqb_refl.
    + change (lit (a :: b :: w)) with (Seq (lit1 a) (lit (b :: w))).
      eapply RunSeq; [constructor; apply N.eqb_refl|].
      replace (i + length (a :: b :: w)) with (S i + length (b :: w))
        by (simpl; lia).
      apply IH.
Qed.

Lemma Run_lit_inv w s i c s' i' c' :
  Run (lit w) s i c s' i' c' -> s = w ++ s' /\ c' = c.
Proof.
  revert s i. induction w as [|a w IH]; intros s i R.
  - simpl in R. inversion R; subst. auto.
  - destruct w as [|b w].
    + simpl in R. inversion R as [|? x ? ? ? Hx| | | | | | | |]; subst.
      apply N.eqb_eq in Hx. subst. auto.
    + change (lit (a :: b :: w)) with (Seq (lit1 a) (lit (b :: w))) in R.
      inversion R as [| |? ? ? ? ? s1 i1 c1 ? ? ? R1 R2| | | | | | |]; subst.
      inversion R1 as [|? x ? ? ? Hx| | | | | | | |]; subst.
      apply N.eqb_eq in Hx. subst.
      destruct (IH _ _ R2) as (-> & ->). auto.
Qed.

Lemma isWhiteSpace_not_digit a : isWhiteSpace a = true -> isDigit a = false.
Proof.
  unfold isWhiteSpace, isLineTerminator, isDigit. intros H.
  destruct (N.leb_spec 48 a); [|reflexivity].
  destruct (N.leb_spec a 57); [|reflexivity].
  exfalso.
  repeat (apply orb_true_iff in H; destruct H as [H|H]);
    try (apply N.eqb_eq in H; lia).
  apply andb_true_iff in H. destruct H as [H _]. apply N.leb_le in H. lia.
Qed.

Lemma Run_Eps_inv s i c s' i' c' :
  Run Eps s i c s' i' c' -> s' = s /\ c' = c.
Proof. intros R. inversion R; subst. auto. Qed.

Lemma firstn_prefix {X : Type} (u v : list X) :
  firstn (length (u ++ v) - length v) (u ++ v) = u.
Proof.
  rewrite length_app.
  replace (length u + length v - length v) with (length u) by lia.
  rewrite firstn_app, firstn_all, Nat.sub_diag. simpl. apply app_nil_r.
Qed.

(** One side of the header: the group takes the last number, whether a
    first number and a comma come before it or not. *)
Lemma headerSide_inv n start last t s i c s1 i1 c1 s2 i2 c2 w r :
  digitText last ->
  match start with Some x => digitText x | None => True end ->
  s = headerSide start last ++ 32%N :: t ->
  Run (Opt (Seq (Plus digit) (lit (js ",")))) s i c s1 i1 c1 ->
  Run (Group n (Plus digit)) s1 i1 c1 s2 i2 c2 ->
  s2 = w :: r -> isWhiteSpace w = true ->
  s2 = 32%N :: t /\ c2 = (n, last) :: c.
Proof.
  intros [Nl Fl] Hx -> RO RG -> Hw.
  pose proof (isWhiteSpace_not_digit w Hw) as Dw.
  inversion RG as [| | | | | | |? ? ? ? ? ? ? ? RP| |]; subst; clear RG.
  apply Run_plus_class_inv in RP.
  destruct RP as (g & G & Es1 & FG & ->).
  assert (EC : firstn (length s1 - length (w :: r)) s1 = g :: G).
  { rewrite Es1. exact (firstn_prefix (g :: G) (w :: r)). }
  rewrite EC. clear EC.
  unfold Opt in RO.
  inversion RO as [| | |? ? ? ? ? ? ? ? RL|? ? ? ? ? ? ? ? RR| | | | |];
    subst; clear RO.
  - (* a first number and a comma were taken *)
    inversion RL as [| |? ? ? ? ? s3 i3 c3 ? ? ? R1 R2| | | | | | |]; subst;
      clear RL.
    apply Run_plus_class_inv in R1. destruct R1 as (d & D & E1 & FD & ->).
    apply (Run_lit_inv [44%N]) in R2. destruct R2 as (-> & ->).
    simpl in E1.
    destruct start as [x|]; simpl in E1.
    + destruct Hx as [Nx Fx].
      change (d :: D ++ 44%N :: g :: G ++ w :: r)
        with ((d :: D) ++ 44%N :: g :: G ++ w :: r) in E1.
      rewrite <- app_assoc in E1. simpl in E1.
      destruct (class_span_unique isDigit _ _ _ _ _ _ Fx FD E1
                  eq_refl eq_refl) as (_ & _ & E2).
      change (g :: G ++ w :: r) with ((g :: G) ++ w :: r) in E2.
      destruct (class_span_unique isDigit _ _ _ _ _ _ Fl FG E2 eq_refl Dw)
        as (-> & <- & <-).
      split; reflexivity.
    + change (d :: D ++ 44%N :: g :: G ++ w :: r)
        with ((d :: D) ++ 44%N :: g :: G ++ w :: r) in E1.
      destruct (class_span_unique isDigit _ _ _ _ _ _ Fl FD E1
                  eq_refl eq_refl) as (_ & E2 & _).
      discriminate.
  - (* nothing was taken before the group *)
    apply Run_Eps_inv in RR. destruct RR as (Es1 & ->).
    symmetry in Es1.
    destruct start as [x|]; simpl in Es1.
    + destruct Hx as [Nx Fx].
      rewrite <- app_assoc in Es1. simpl in Es1.
      change (g :: G ++ w :: r) with ((g :: G) ++ w :: r) in Es1.
      destruct (class_span_unique isDigit _ _ _ _ _ _ Fx FG Es1
                  eq_refl Dw) as (_ & E2 & _).
      subst w. discriminate.
    + change (g :: G ++ w :: r) with ((g :: G) ++ w :: r) in Es1.
      destruct (class_span_unique isDigit _ _ _ _ _ _ Fl FG Es1 eq_refl Dw)
        as (-> & <- & <-).
      split; reflexivity.
Qed.

Lemma Run_headerSide start last s i c :
  match start with Some x => digitText x | None => True end ->
  Run (Opt (Seq (Plus digit) (lit (js ",")))) (headerSide start last ++ s)
    i c (last ++ s)
    (i + (length (headerSide start last) - length last)) c.
Proof.
  intros Hx. unfold Opt. destruct start as [x|]; simpl.
  - destruct Hx as [Nx Fx]. apply RunAltL.
    rewrite <- app_assoc. simpl.
    eapply RunSeq; [apply (Run_plus_class isDigit x); assumption|].
    rewrite length_app. simpl.
    replace (i + (length x + S (length last) - length last))
      with (i + length x + length [44%N]) by (simpl; lia).
    apply (Run_lit [44%N]).
  - rewrite Nat.sub_diag, Nat.add_0_r. apply RunAltR. constructor.
Qed.

Ltac inv_seq H R1 :=
  let Rt := fresh "Rt" in
  inversion H as [| |? ? ? ? ? ? ? ? ? ? ? R1 Rt| | | | | | |]; subst; clear H;
  rename Rt into H.

(** The hunk header pattern on a header line: it matches, and each group
    holds the last number of its side, that is the count when a start line
    and a count are written, and the start line when the count is left
    out. *)
Lemma hunkHeader_exec start1 last1 start2 last2 rest :
  digitText last1 ->
  match start1 with Some x => digitText x | None => True end ->
  digitText last2 ->
  match start2 with Some x => digitText x | None => True end ->
  dotText rest ->
  exists m,
    exec regexPatchHunkAsciiHeader
      (hunkHeaderLine start1 last1 start2 last2 rest) = Some m
    /\ capture m 1 = Some last1
    /\ capture m 2 = Some last2.
Proof.
  intros D1 X1 D2 X2 Dr.
  set (line := hunkHeaderLine start1 last1 start2 last2 rest).
  assert (EM : exec regexPatchHunkAsciiHeader line
               = matchAt regexPatchHunkAsciiHeader line 0)
    by exact (exec_Bol _ line).
  rewrite EM. clear EM.
  assert (Ex : exists m, matchAt regexPatchHunkAsciiHeader line 0 = Some m).
  { unfold matchAt.
    eapply (rmatch_complete caps); [|reflexivity].
    unfold regexPatchHunkAsciiHeader. cbn [seq]. unfold line, hunkHeaderLine.
    eapply RunSeq; [constructor|].
    eapply RunSeq; [apply (Run_lit (js "@@"))|].
    eapply RunSeq; [apply (Run_plus_class isWhiteSpace [32%N]);
                    [discriminate | repeat constructor]|].
    eapply RunSeq; [apply (Run_lit (js "-"))|].
    eapply RunSeq; [apply Run_headerSide; exact X1|].
    eapply RunSeq;
      [apply RunGroup; apply (Run_plus_class isDigit last1); apply D1|].
    eapply RunSeq; [apply (Run_plus_class isWhiteSpace [32%N]);
                    [discriminate | repeat constructor]|].
    eapply RunSeq; [apply (Run_lit (js "+"))|].
    eapply RunSeq; [apply Run_headerSide; exact X2|].
    eapply RunSeq;
      [apply RunGroup; apply (Run_plus_class isDigit last2); apply D2|].
    eapply RunSeq; [apply (Run_plus_class isWhiteSpace [32%N]);
                    [discriminate | repeat constructor]|].
    eapply RunSeq; [apply (Run_lit (js "@@"))|].
    eapply RunSeq; [|constructor].
    match goal with
    | |- Run _ _ ?i0 ?c0 _ _ _ =>
        pose proof (Run_star_class true (fun a => negb (isLineTerminator a))
                      rest [] i0 c0 Dr) as G
    end.
    rewrite app_nil_r in G. exact G. }
  destruct Ex as [m Hm]. exists m. split; [exact Hm|].
  apply matchAt_Run in Hm. destruct Hm as (s' & i' & c' & R & ->).
  cbn [capture Nat.eqb].
  unfold regexPatchHunkAsciiHeader in R. cbn [seq] in R.
  unfold line, hunkHeaderLine in R.
  inv_seq R Ra. inversion Ra; subst; clear Ra.
  inv_seq R Ra. apply (Run_lit_inv (js "@@")) in Ra.
  destruct Ra as (Ea & ->). simpl in Ea. injection Ea as <-.
  inv_seq R Ra. apply Run_plus_class_inv in Ra.
  destruct Ra as (a & pre & Ea & Fa & ->).
  inv_seq R Rb. apply (Run_lit_inv (js "-")) in Rb.
  destruct Rb as (-> & ->). simpl in Ea. injection Ea as <- Ea.
  inversion Fa as [|? ? _ Fpre]; subst.
  destruct (class_span_unique isWhiteSpace [] pre _ _ _ _
              (Forall_nil _) Fpre Ea eq_refl eq_refl) as (<- & _ & E3).
  inv_seq R RO. inv_seq R RG. inv_seq R RW.
  apply Run_plus_class_inv in RW.
  destruct RW as (w & W & Ew & FW & ->).
  inversion FW as [|? ? Hw FW']; subst.
  destruct (headerSide_inv 1 start1 last1 _ _ _ _ _ _ _ _ _ _ w _
              D1 X1 eq_refl RO RG eq_refl Hw) as (Ew1 & ->).
  injection Ew1 as -> Ew1.
  inv_seq R Rb. apply (Run_lit_inv [43%N]) in Rb.
  destruct Rb as (-> & ->). simpl in Ew1.
  destruct (class_span_unique isWhiteSpace W [] _ _ _ _
              FW' (Forall_nil _) Ew1 eq_refl eq_refl) as (-> & _ & E4).
  subst. clear RO RG.
  inv_seq R RO. inv_seq R RG. inv_seq R RW.
  apply Run_plus_class_inv in RW.
  destruct RW as (w2 & W2 & Ew2 & FW2 & ->).
  inversion FW2 as [|? ? Hw2 FW2']; subst.
  destruct (headerSide_inv 2 start2 last2 _ _ _ _ _ _ _ _ _ _ w2 _
              D2 X2 eq_refl RO RG eq_refl Hw2) as (_ & ->).
  inv_seq R Rb. apply (Run_lit_inv (js "@@")) in Rb.
  destruct Rb as (_ & ->).
  inv_seq R Rc. apply Run_star_class_inv in Rc.
  destruct Rc as (pre2 & _ & _ & _ & ->).
  inversion R; subst. split; reflexivity.
Qed.

(** A hunk header is no file header: that pattern wants [d] first. *)
Lemma hunkHeaderLine_no_fileHeader start1 last1 start2 last2 rest :
  exec regexPatchFileHeader (hunkHeaderLine start1 last1 start2 last2 rest)
  = None.
Proof.
  unfold regexPatchFileHeader. cbn [seq]. rewrite exec_Bol. reflexivity.
Qed.

(** Met in the state [FileHeader] or [HunkEnd], a hunk header opens an
    ascii hunk whose counters are read off the last number of each side:
    the count of the side when it is written, its start line when the count
    is left out. *)
Lemma hunkHeader_counters v start1 last1 start2 last2 rest :
  patchState v = PatchStateFileHeader \/ patchState v = PatchStateHunkEnd ->
  digitText last1 ->
  match start1 with Some x => digitText x | None => True end ->
  digitText last2 ->
  match start2 with Some x => digitText x | None => True end ->
  dotText rest ->
  exists v',
    loopBody v (hunkHeaderLine start1 last1 start2 last2 rest) = Ok v'
    /\ patchState v' = PatchStateHunkHeader
    /\ ascii v' = true
    /\ deletedLines v' = parseInt last1
    /\ addedLines v' = parseInt last2.
Proof.
  intros HS D1 X1 D2 X2 Dr.
  destruct (hunkHeader_exec start1 last1 start2 last2 rest D1 X1 D2 X2 Dr)
    as (m & Hm & H1 & H2).
  assert (R : selectRule v (hunkHeaderLine start1 last1 start2 last2 rest)
              = RuleHunkHeader (Some m)).
  { unfold selectRule, condFileHeader, condHunkHeader.
    rewrite hunkHeaderLine_no_fileHeader, Hm.
    destruct HS as [-> | ->]; reflexivity. }
  unfold loopBody. rewrite R. cbn [applyRule]. unfold groupToString.
  rewrite H1, H2. cbn [bind].
  assert (NB : forall u,
             dropsBlank u (hunkHeaderLine start1 last1 start2 last2 rest)
             = false).
  { intros u. unfold dropsBlank. simpl. apply andb_false_r. }
  rewrite NB. eexists. split; [reflexivity|]. simpl. auto.
Qed.

End HunkHeaderFacts.

(** ** The counts of a hunk header *)

Module HunkHeaderClaims.

Import RegexFacts PatchFacts HunkHeaderFacts.

(** C4, at the header ["@@ -5 +5,2 @@"].  The count of deleted lines is
    omitted and stands for 1; the pattern makes the start line optional
    instead, so the counter of deleted lines is set to the start line, 5.
    The patch below, one line deleted and two added as its header says, is
    turned down.  On the two headers of the comment of the source the
    counters are right: with both counts written they are the counts, and
    in ["@@ -1 +1,3 @@ xx"] the start line happens to be 1. *)
Example omitted_count_taken_from_start_line :
  let bodyText :=
    joinLines [js "diff --git a/f b/f"; js "@@ -5 +5,2 @@"; js "-a";
               js "+b"; js "+c"; js "-- "] in
  (exists v,
      localsAt (splitLines bodyText) 2 = Ok v
      /\ deletedLines v = Fin 5 /\ addedLines v = Fin 2)
  /\ (exists patchText, convertToPatch bodyText = Ok (false, patchText))
  /\ (exists v,
         forLines initial
           [js "diff --git a/f b/f";
            js "@@ -347,7 +347,8 @@ Field(GNVS,AnyAcc,Lock,Preserve)"] = Ok v
         /\ deletedLines v = Fin 7 /\ addedLines v = Fin 8)
  /\ (exists v,
         forLines initial [js "diff --git a/f b/f"; js "@@ -1 +1,3 @@ xx"]
         = Ok v
         /\ deletedLines v = Fin 1 /\ addedLines v = Fin 3).
Proof.
  intros bodyText. split; [|split; [|split]].
  - eexists. split; [vm_compute; reflexivity|]. split; reflexivity.
  - eexists. vm_compute. reflexivity.
  - eexists. split; [vm_compute; reflexivity|]. split; reflexivity.
  - eexists. split; [vm_compute; reflexivity|]. split; reflexivity.
Qed.

End HunkHeaderClaims.

(** ** Blank lines *)

Module BlankLineClaims.

Import RegexFacts PatchFacts ScanClaims.

(** A blank line matches none of the patterns and none of the literals:
    it takes the branch of the hunk lines or none. *)
Lemma selectRule_blank v :
  selectRule v [] = if condHunkLine v then RuleHunkLine else RuleNone.
Proof.
  unfold selectRule, condFileHeader, condHunkHeader, condBinarySubHeader,
    condHunkLine, condSignature.
  destruct (patchState v); reflexivity.
Qed.

Lemma dropsBlank_blank v : dropsBlank v [] = inAsciiHunk v.
Proof. unfold dropsBlank, inAsciiHunk. simpl. apply andb_true_r. Qed.

(** C8.  Take a blank line of the body and the locals it is met with.
    The counters are what they were.  The test that drops blank lines
    reads the locals as the branch taken for the line leaves them: when
    these are in the context of an ascii hunk (state [Hunk] or [HunkEnd],
    hunk marked ascii), the line is dropped and the output is what it was;
    when they are not, the output has grown by the blank line, that is by
    its line feed.  A blank line met in the context of an ascii hunk is
    still in it at the test; one met in the state [Start], [FileHeader] or
    [End], or while the hunk is binary, is outside it at the test.  In
    terms of the locals the line is met with, the context at the test is
    that of an ascii hunk exactly when the hunk is ascii and the state is
    [HunkHeader], [Hunk] or [HunkEnd]. *)
Theorem blank_line_dropped_or_kept (bodyText : str) (n : nat) (v : Locals) :
  localsAt (splitLines bodyText) n = Ok v ->
  nth_error (splitLines bodyText) n = Some [] ->
  exists v1 unixEol v',
    applyRule v [] (selectRule v []) = Ok (v1, unixEol)
    /\ localsAt (splitLines bodyText) (S n) = Ok v'
    /\ addedLines v' = addedLines v
    /\ deletedLines v' = deletedLines v
    /\ (inAsciiHunk v1 = true -> patchBody v' = patchBody v)
    /\ (inAsciiHunk v1 = false -> patchBody v' = patchBody v ++ [LF])
    /\ (inAsciiHunk v = true -> inAsciiHunk v1 = true)
    /\ (patchState v = PatchStateStart \/ patchState v = PatchStateFileHeader
        \/ patchState v = PatchStateEnd \/ ascii v = false ->
        inAsciiHunk v1 = false)
    /\ inAsciiHunk v1 = blankDropped v.
Proof.
  intros Hv Hl.
  destruct (localsAt_ok (splitLines bodyText) n) as (v0 & H0 & K).
  rewrite Hv in H0. injection H0 as <-.
  rewrite (localsAt_S _ _ _ Hl), Hv. simpl.
  unfold loopBody. rewrite selectRule_blank.
  unfold condHunkLine, blankDropped.
  destruct (patchState v) eqn:ES; simpl.
  - eexists _, _, _. split; [reflexivity|]. rewrite dropsBlank_blank.
    unfold inAsciiHunk. rewrite ES, !andb_false_r. simpl.
    repeat split; try reflexivity; try discriminate.
  - eexists _, _, _. split; [reflexivity|]. rewrite dropsBlank_blank.
    unfold inAsciiHunk. rewrite ES, !andb_false_r. simpl.
    repeat split; try reflexivity; try discriminate.
  - assert (P : filePath v <> None) by (apply K; rewrite ES; discriminate).
    destruct (filePath v) as [p|] eqn:EP; [|congruence].
    destruct (ascii v) eqn:EA; simpl.
    + destruct (isZero (addedLines v) && isZero (deletedLines v)); simpl;
        eexists _, _, _; (split; [reflexivity|]);
        rewrite dropsBlank_blank; unfold inAsciiHunk; simpl; rewrite ES, EA;
        simpl; repeat split; try reflexivity; try discriminate;
        intros [H|[H|[H|H]]]; discriminate H.
    + eexists _, _, _. split; [reflexivity|]. rewrite dropsBlank_blank.
      unfold inAsciiHunk. simpl. rewrite ES, EA. simpl.
      repeat split; try reflexivity; try discriminate.
  - assert (P : filePath v <> None) by (apply K; rewrite ES; discriminate).
    destruct (filePath v) as [p|] eqn:EP; [|congruence].
    destruct (ascii v) eqn:EA; simpl.
    + destruct (isZero (addedLines v) && isZero (deletedLines v)); simpl;
        eexists _, _, _; (split; [reflexivity|]);
        rewrite dropsBlank_blank; unfold inAsciiHunk; simpl; rewrite ES, EA;
        simpl; repeat split; try reflexivity; try discriminate;
        intros [H|[H|[H|H]]]; discriminate H.
    + eexists _, _, _. split; [reflexivity|]. rewrite dropsBlank_blank.
      unfold inAsciiHunk. simpl. rewrite ES, EA. simpl.
      repeat split; try reflexivity; try discriminate.
  - destruct (ascii v) eqn:EA;
      eexists _, _, _; (split; [reflexivity|]); rewrite dropsBlank_blank;
      unfold inAsciiHunk; rewrite ES, EA; simpl;
      repeat split; try reflexivity; try discriminate;
      intros [H|[H|[H|H]]]; discriminate H.
  - eexists _, _, _. split; [reflexivity|]. rewrite dropsBlank_blank.
    unfold inAsciiHunk. rewrite ES, !andb_false_r. simpl.
    repeat split; try reflexivity; try discriminate.
Qed.

(** The theorem at a blank line in the middle of an ascii hunk. *)
Lemma blank_line_dropped_or_kept_witness :
  let bodyText :=
    joinLines [js "diff --git a/f b/f"; js "@@ -1 +1 @@"; js "-a"; [];
               js "+b"; js "-- "] in
  exists v,
    localsAt (splitLines bodyText) 3 = Ok v
    /\ nth_error (splitLines bodyText) 3 = Some []
    /\ exists v1 unixEol v',
         applyRule v [] (selectRule v []) = Ok (v1, unixEol)
         /\ localsAt (splitLines bodyText) 4 = Ok v'
         /\ addedLines v' = addedLines v
         /\ deletedLines v' = deletedLines v
         /\ (inAsciiHunk v1 = true -> patchBody v' = patchBody v)
         /\ (inAsciiHunk v1 = false -> patchBody v' = patchBody v ++ [LF])
         /\ (inAsciiHunk v = true -> inAsciiHunk v1 = true)
         /\ (patchState v = PatchStateStart
             \/ patchState v = PatchStateFileHeader
             \/ patchState v = PatchStateEnd \/ ascii v = false ->
             inAsciiHunk v1 = false)
         /\ inAsciiHunk v1 = blankDropped v.
Proof.
  intros bodyText. eexists.
  split; [vm_compute; reflexivity|].
  split; [vm_compute; reflexivity|].
  apply (blank_line_dropped_or_kept bodyText 3); vm_compute; reflexivity.
Defined.

(** The blank line that directly follows the header of an ascii hunk is
    the first line of the body of the hunk: its branch moves the state to
    [Hunk] before the test, and the line is dropped. *)
Lemma blank_line_after_hunk_header_dropped :
  let bodyText :=
    joinLines [js "diff --git a/f b/f"; js "@@ -1 +1 @@"; []; js "-a";
               js "+b"; js "-- "] in
  nth_error (splitLines bodyText) 2 = Some []
  /\ (exists v v1 unixEol v',
         localsAt (splitLines bodyText) 2 = Ok v
         /\ patchState v = PatchStateHunkHeader
         /\ applyRule v [] (selectRule v []) = Ok (v1, unixEol)
         /\ patchState v1 = PatchStateHunk
         /\ inAsciiHunk v1 = true
         /\ localsAt (splitLines bodyText) 3 = Ok v'
         /\ patchBody v' = patchBody v)
  /\ convertToPatch bodyText
     = Ok (true,
           js "diff --git a/f b/f" ++ [LF] ++ js "@@ -1 +1 @@" ++ [LF]
           ++ js "-a" ++ [CR; LF] ++ js "+b" ++ [CR; LF] ++ js "-- " ++ [LF]).
Proof.
  intros bodyText. split; [reflexivity|]. split.
  - eexists _, _, _, _. split; [vm_compute; reflexivity|].
    split; [reflexivity|]. split; [vm_compute; reflexivity|].
    split; [reflexivity|]. split; [reflexivity|].
    split; [vm_compute; reflexivity | reflexivity].
  - vm_compute. reflexivity.
Qed.

End BlankLineClaims.

(** ** The two copies *)

Module CopyClaims.

Import RegexFacts PatchFacts.

(** C10, at a hunk whose context line starts with a non-breaking space.
    The sibling copy has replaced it before it looks at the line, counts
    the line and accepts the patch; this copy sees no context line, leaves
    the hunk open and turns the patch down. *)
Example copies_differ_on_nbsp :
  let bodyText :=
    joinLines [js "diff --git a/f b/f"; js "@@ -1 +1 @@"; NBSP :: js "x";
               js "-- "] in
  convertToPatch bodyText
  = Ok (false,
        js "diff --git a/f b/f" ++ [LF] ++ js "@@ -1 +1 @@" ++ [LF]
        ++ js " x" ++ [CR; LF] ++ js "-- " ++ [CR; LF])
  /\ convertToPatch_sibling bodyText
     = Ok (true,
           js "diff --git a/f b/f" ++ [LF] ++ js "@@ -1 +1 @@" ++ [LF]
           ++ js " x" ++ [CR; LF] ++ js "-- " ++ [LF]).
Proof. intros bodyText. split; vm_compute; reflexivity. Qed.

Lemma replaceNbsp_id s : ~ In NBSP s -> replaceNbsp s = s.
Proof.
  induction s as [|c s IH]; intros H; simpl; [reflexivity|].
  destruct (N.eqb c NBSP) eqn:E.
  - apply N.eqb_eq in E. exfalso. apply H. left. congruence.
  - f_equal. apply IH. intros G. apply H. right. exact G.
Qed.

(** The two copies agree on a body without non-breaking space. *)
Lemma copies_agree_without_nbsp bodyText :
  ~ In NBSP bodyText ->
  convertToPatch_sibling bodyText = convertToPatch bodyText.
Proof.
  intros H. unfold convertToPatch_sibling, convertToPatch.
  rewrite (replaceNbsp_id _ H). reflexivity.
Qed.

End CopyClaims.

(** ** Non-breaking spaces *)

Module NbspClaims.

Import RegexFacts PatchFacts ScanClaims CopyClaims.

Local Open Scope list_scope.

Lemma spaced_replaceNbsp s : spaced s (replaceNbsp s).
Proof.
  unfold spaced, replaceNbsp.
  induction s as [|c s IH]; simpl; constructor; [|exact IH].
  destruct (N.eqb c NBSP) eqn:E.
  - left. apply N.eqb_eq in E. auto.
  - right. apply N.eqb_neq in E. auto.
Qed.

Lemma spaced_same s : ~ In NBSP s -> spaced s s.
Proof.
  unfold spaced. induction s as [|c s IH]; intros H; constructor.
  - right. split; [|reflexivity]. intros ->. apply H. left. reflexivity.
  - apply IH. intros G. apply H. right. exact G.
Qed.

Lemma spaced_app a b a' b' :
  spaced a b -> spaced a' b' -> spaced (a ++ a') (b ++ b').
Proof. apply Forall2_app. Qed.

Lemma terminator_clean v line : ~ In NBSP (terminator v line).
Proof.
  unfold terminator.
  destruct (asciiHunkContent v line && negb (shellScript v));
    intros H; simpl in H; unfold NBSP, CR, LF in H;
    repeat (destruct H as [H|H]; [discriminate|]); exact H.
Qed.

(** The text appended is the text as met, with its non-breaking spaces
    replaced. *)
Lemma textWith_spaced lines :
  forall v, spaced (textAsMet terminator v lines) (textWith terminator v lines).
Proof.
  induction lines as [|line rest IH]; intros v; simpl; [constructor|].
  apply spaced_app.
  - destruct (emitted v line); [|constructor].
    apply spaced_app; [apply spaced_replaceNbsp|].
    apply spaced_same, terminator_clean.
  - destruct (loopBody v line); [apply IH | constructor].
Qed.

Lemma nbspCount_app a b : nbspCount (a ++ b) = nbspCount a + nbspCount b.
Proof. apply count_occ_app. Qed.

Lemma nbspCount_absent s : ~ In NBSP s -> nbspCount s = 0.
Proof. intros H. apply count_occ_not_In. exact H. Qed.

(** Only a blank line is kept from the output, so that the text as met
    holds every non-breaking space of the lines. *)
Lemma textAsMet_count lines :
  forall v, pathKnown v ->
    nbspCount (textAsMet terminator v lines) = nbspCount (concat lines).
Proof.
  induction lines as [|line rest IH]; intros v K; simpl; [reflexivity|].
  rewrite !nbspCount_app.
  destruct (loopBody_ok line K) as (v' & H & K').
  rewrite H, (IH v' K'). f_equal.
  unfold emitted.
  destruct (applyRule_ok line K) as (v1 & e & H1 & _). rewrite H1.
  destruct (dropsBlank v1 line) eqn:D; simpl.
  - unfold dropsBlank in D. apply andb_true_iff in D. destruct D as [_ D].
    apply str_eqb_eq in D. subst line. reflexivity.
  - rewrite nbspCount_app, (nbspCount_absent _ (terminator_clean v line)).
    lia.
Qed.

Lemma nbspCount_rev s : nbspCount (rev s) = nbspCount s.
Proof. apply count_occ_rev. Qed.

Lemma nbspCount_cons c s :
  nbspCount (c :: s) = (if N.eqb c NBSP then 1 else 0) + nbspCount s.
Proof.
  unfold nbspCount. cbn [count_occ].
  destruct (N.eq_dec c NBSP) as [E|E].
  - subst c. reflexivity.
  - apply N.eqb_neq in E. rewrite E. reflexivity.
Qed.

(** The lines of a text hold its non-breaking spaces, all of them. *)
Lemma splitFrom_count n :
  forall s cur, length s <= n ->
    nbspCount (concat (splitFrom cur s)) = nbspCount cur + nbspCount s.
Proof.
  assert (Z : nbspCount [] = 0) by reflexivity.
  induction n as [|n IH]; intros s cur Hn.
  - destruct s; [|simpl in Hn; lia]. cbn [splitFrom concat].
    rewrite app_nil_r, nbspCount_rev, Z. lia.
  - destruct s as [|c rest].
    + cbn [splitFrom concat]. rewrite app_nil_r, nbspCount_rev, Z. lia.
    + simpl in Hn.
      assert (R : nbspCount (concat (splitFrom (c :: cur) rest))
                  = nbspCount cur + nbspCount (c :: rest)).
      { rewrite IH by lia. rewrite !nbspCount_cons. lia. }
      assert (Q : forall t, length t <= n ->
                  nbspCount (concat (rev cur :: splitFrom [] t))
                  = nbspCount cur + nbspCount t).
      { intros t Ht. cbn [concat].
        rewrite nbspCount_app, IH, nbspCount_rev, Z by exact Ht. lia. }
      cbn [splitFrom].
      destruct (N.eqb c LF) eqn:E1.
      { apply N.eqb_eq in E1. subst c. rewrite Q by lia.
        rewrite nbspCount_cons. reflexivity. }
      destruct (N.eqb c CR) eqn:E2; [|exact R].
      destruct rest as [|d rest']; [exact R|].
      destruct (N.eqb d LF) eqn:E3; [|exact R].
      apply N.eqb_eq in E2. apply N.eqb_eq in E3. subst c d.
      rewrite Q by (simpl in Hn; lia). rewrite !nbspCount_cons. reflexivity.
Qed.

Lemma splitLines_count s : nbspCount (concat (splitLines s)) = nbspCount s.
Proof. apply (splitFrom_count (length s)). apply le_n. Qed.

(** Where no line holds a non-breaking space, the text appended is the
    text as met. *)
Lemma textWith_textAsMet lines :
  Forall (fun l => ~ In NBSP l) lines ->
  forall v, textWith terminator v lines = textAsMet terminator v lines.
Proof.
  induction 1 as [|line rest Hl Hrest IH]; intros v; simpl; [reflexivity|].
  rewrite (replaceNbsp_id _ Hl).
  destruct (loopBody v line); [rewrite IH|]; reflexivity.
Qed.

Lemma splitLines_clean s :
  ~ In NBSP s -> Forall (fun l => ~ In NBSP l) (splitLines s).
Proof.
  intros H. apply Forall_forall. intros l Hl G.
  assert (E : nbspCount (concat (splitLines s)) = 0).
  { rewrite splitLines_count. apply nbspCount_absent. exact H. }
  assert (P : In NBSP (concat (splitLines s))).
  { apply in_concat. exists l. split; assumption. }
  apply (count_occ_In N.eq_dec) in P. unfold nbspCount in E. lia.
Qed.

(** C7.  The text that [convertToPatch] returns is the text of the lines
    that go to the output, as they are met in the body and each with its
    terminator, in which every non-breaking space has become an ordinary
    space and every other code unit is what it was; the text as met holds
    every non-breaking space of the body, since only blank lines are kept
    from the output; and the text returned holds none.  The sibling copy
    returns the text as met of the body in which every non-breaking space
    has become an ordinary space, and this text holds none either. *)
Theorem convertToPatch_replaces_nbsp (bodyText : str) :
  (exists success patchText,
      convertToPatch bodyText = Ok (success, patchText)
      /\ spaced (textAsMet terminator initial (splitLines bodyText)) patchText
      /\ nbspCount (textAsMet terminator initial (splitLines bodyText))
         = nbspCount bodyText
      /\ ~ In NBSP patchText)
  /\ (exists success patchText spacedBody,
         convertToPatch_sibling bodyText = Ok (success, patchText)
         /\ spaced bodyText spacedBody
         /\ patchText = textAsMet terminator initial (splitLines spacedBody)
         /\ ~ In NBSP patchText).
Proof.
  split.
  - destruct (forLines_ok (splitLines bodyText) initial pathKnown_initial)
      as (v & H & _).
    unfold convertToPatch. rewrite H. simpl. unfold finish.
    eexists _, _. split; [reflexivity|].
    rewrite (forLines_output _ _ _ H). simpl.
    split; [apply textWith_spaced|].
    split; [|apply textWith_terminator_clean].
    rewrite (textAsMet_count _ _ pathKnown_initial). apply splitLines_count.
  - destruct (forLines_ok (splitLines (replaceNbsp bodyText)) initial
                pathKnown_initial) as (v & H & _).
    unfold convertToPatch_sibling. rewrite H. simpl. unfold finish.
    eexists _, _, (replaceNbsp bodyText). split; [reflexivity|].
    split; [apply spaced_replaceNbsp|].
    rewrite (forLines_output _ _ _ H). simpl.
    split; [|apply textWith_terminator_clean].
    apply textWith_textAsMet, splitLines_clean, replaceNbsp_clean.
Qed.

End NbspClaims.

(** ** The claim about the file-name deriver *)

Module FileNameClaims.

Import RegexFacts.

Lemma endsWith_spec a b : endsWith a b = true <-> exists p, a = p ++ b.
Proof.
  unfold endsWith. split.
  - intros H. apply andb_true_iff in H. destruct H as [_ H].
    apply str_eqb_eq in H.
    exists (firstn (length a - length b) a).
    pose proof (firstn_skipn (length a - length b) a) as G.
    rewrite H in G. symmetry. exact G.
  - intros [p ->]. rewrite length_app. apply andb_true_iff. split.
    + apply Nat.leb_le. lia.
    + replace (length p + length b - length b) with (length p + 0) by lia.
      rewrite skipn_app, Nat.add_0_r, skipn_all.
      replace (length p - length p) with 0 by lia.
      simpl. apply str_eqb_refl.
Qed.

(** C9, as the code has it.  With [success = false] the name ends in
    [.warning.patch].  The two names of a subject are the same stem
    followed by [.warning.patch] and by [.patch]: with [success = true]
    nothing is appended but [.patch], so the name ends in [.warning.patch]
    exactly when the stem itself ends in [.warning]. *)
Theorem getPatchFileName_suffix (bigToString : Z -> str) (subject : str) :
  endsWith (getPatchFileName bigToString subject false) (js ".warning.patch")
  = true
  /\ getPatchFileName bigToString subject false
     = stem bigToString subject ++ js ".warning.patch"
  /\ getPatchFileName bigToString subject true
     = stem bigToString subject ++ js ".patch"
  /\ (endsWith (getPatchFileName bigToString subject true)
        (js ".warning.patch") = true
      <-> endsWith (stem bigToString subject) (js ".warning") = true).
Proof.
  assert (E1 : getPatchFileName bigToString subject false
               = stem bigToString subject ++ js ".warning.patch").
  { unfold getPatchFileName. simpl negb. cbv iota.
    rewrite <- app_assoc. reflexivity. }
  split; [|split; [exact E1 | split; [reflexivity|]]].
  - rewrite E1. apply endsWith_spec. eexists. reflexivity.
  - unfold getPatchFileName. simpl negb. cbv iota.
    rewrite !endsWith_spec.
    change (js ".warning.patch") with (js ".warning" ++ js ".patch").
    split; intros [p H].
    + exists p. rewrite app_assoc in H. apply app_inv_tail in H. exact H.
    + exists p. rewrite H, <- app_assoc. reflexivity.
Qed.

(** C9, as stated, fails at the subject ["x.warning"], whatever the
    runtime prints for large numbers: the pattern of the subject does not
    match, the subject is its own stem, and with [success = true] the name
    is ["x.warning.patch"]. *)
Lemma getPatchFileName_true_may_end_in_warning :
  ~ (forall (bigToString : Z -> str) (subject : str),
        endsWith (getPatchFileName bigToString subject true)
          (js ".warning.patch") = false).
Proof.
  intros H. specialize (H (fun _ => []) (js "x.warning")).
  vm_compute in H. discriminate.
Qed.

End FileNameClaims.
